(** * Porter: the publish pipeline ([pkg/porter/publish.go])

    A shallow embedding of [publish.go] and of the parts of the packages it
    calls that decide its behaviour:

    - Go strings are byte strings, modelled by [string];
    - Go [error] values are modelled by the type [error], with the wrapping
      of [github.com/pkg/errors];
    - [github.com/docker/distribution/reference] (the grammar of image
      references, [Parse], [ParseNormalizedNamed]) and the digest validation
      of [github.com/opencontainers/go-digest] are modelled in the modules
      [regexp], [digest] and [reference];
    - the collaborators of the pipeline (manifest loading, Docker client,
      registry, relocation engine) are the fields of the record
      [Externals]; a publish run is a computation in the monad [M], which
      threads the [Porter] value and records every call to a collaborator
      together with its outcome. *)

From Stdlib Require Import List Ascii String Bool Arith Lia.
Import ListNotations.

Local Open Scope list_scope.
Local Open Scope string_scope.

Set Implicit Arguments.

(* ================================================================== *)
(** * Go strings *)
(* ================================================================== *)

Module strings.

(** [strings.IndexRune(s, c)] for an ASCII rune: position of the first
    occurrence of [c]; [None] stands for Go's [-1]. *)
Fixpoint IndexRune (s : string) (c : ascii) : option nat :=
  match s with
  | EmptyString => None
  | String a s' =>
      if Ascii.eqb a c then Some 0
      else match IndexRune s' c with
           | Some i => Some (S i)
           | None => None
           end
  end.

(** [s[:n]] *)
Fixpoint take (n : nat) (s : string) : string :=
  match n, s with
  | S n', String a s' => String a (take n' s')
  | _, _ => EmptyString
  end.

(** [s[n:]] *)
Fixpoint drop (n : nat) (s : string) : string :=
  match n, s with
  | S n', String _ s' => drop n' s'
  | _, _ => s
  end.

(** [strings.ContainsRune(s, c)] *)
Fixpoint ContainsRune (s : string) (c : ascii) : bool :=
  match s with
  | EmptyString => false
  | String a s' => Ascii.eqb a c || ContainsRune s' c
  end.

(** [strings.ContainsAny(s, chars)] *)
Fixpoint ContainsAny (s chars : string) : bool :=
  match s with
  | EmptyString => false
  | String a s' => ContainsRune chars a || ContainsAny s' chars
  end.

(** [strings.HasPrefix(s, prefix)] *)
Fixpoint HasPrefix (s prefix : string) {struct prefix} : bool :=
  match prefix, s with
  | EmptyString, _ => true
  | String a p', String b s' => Ascii.eqb a b && HasPrefix s' p'
  | String _ _, EmptyString => false
  end.

(** [strings.Contains(s, substr)] *)
Fixpoint Contains (s substr : string) : bool :=
  HasPrefix s substr ||
  match s with
  | EmptyString => false
  | String _ s' => Contains s' substr
  end.

Definition is_upper (c : ascii) : bool :=
  ((65 <=? nat_of_ascii c) && (nat_of_ascii c <=? 90))%nat.
Definition is_lower (c : ascii) : bool :=
  ((97 <=? nat_of_ascii c) && (nat_of_ascii c <=? 122))%nat.
Definition is_digit (c : ascii) : bool :=
  ((48 <=? nat_of_ascii c) && (nat_of_ascii c <=? 57))%nat.

Definition lower_char (c : ascii) : ascii :=
  if is_upper c then ascii_of_nat (nat_of_ascii c + 32) else c.

(** [strings.ToLower(s)] on the ASCII letters (the only letters the
    reference grammar admits). *)
Fixpoint ToLower (s : string) : string :=
  match s with
  | EmptyString => EmptyString
  | String a s' => String (lower_char a) (ToLower s')
  end.

(** The fields of [s] between occurrences of [c] ([strings.Split] with a
    one-byte separator); never the empty list. *)
Fixpoint Split (s : string) (c : ascii) : list string :=
  match s with
  | EmptyString => [EmptyString]
  | String a s' =>
      if Ascii.eqb a c then EmptyString :: Split s' c
      else match Split s' c with
           | x :: r => String a x :: r
           | [] => [String a EmptyString]
           end
  end.

(** [strings.Join(l, sep)] *)
Fixpoint Join (l : list string) (sep : string) : string :=
  match l with
  | [] => EmptyString
  | [x] => x
  | x :: r => x ++ sep ++ Join r sep
  end.

(** [s] cut around the first [c]: the text before it, and the text after
    it when [c] occurs. *)
Fixpoint Cut (s : string) (c : ascii) : string * option string :=
  match s with
  | EmptyString => (EmptyString, None)
  | String a s' =>
      if Ascii.eqb a c then (EmptyString, Some s')
      else let (b, r) := Cut s' c in (String a b, r)
  end.

End strings.

(* ================================================================== *)
(** * Errors ([error], [errors.New], [errors.Wrap], [errors.Cause]) *)
(* ================================================================== *)

Module errors.

(** A non-nil Go [error]. [New msg] is an error made by [errors.New] or
    [fmt.Errorf]; [Wrap cause msg] is [errors.Wrap(cause, msg)], which
    keeps [cause]. A possibly-nil [error] is an [option error]. *)
Inductive error : Type :=
| New (msg : string)
| Wrap (cause : error) (msg : string).

(** [err.Error()] *)
Fixpoint Error (e : error) : string :=
  match e with
  | New msg => msg
  | Wrap cause msg => msg ++ ": " ++ Error cause
  end.

(** [errors.Cause(err)] *)
Fixpoint Cause (e : error) : error :=
  match e with
  | New msg => New msg
  | Wrap cause _ => Cause cause
  end.

End errors.

Import errors.

(** A Go result pair [(value, error)] in which exactly one side counts. *)
Inductive result (A : Type) : Type :=
| Ok (a : A)
| Err (e : error).
Arguments Ok {A} a.
Arguments Err {A} e.

Definition err_of {A} (r : result A) : option error :=
  match r with Ok _ => None | Err e => Some e end.

(* ================================================================== *)
(** * Regular expressions (the fragment of Go's [regexp] that the
      reference grammar uses) *)
(* ================================================================== *)

Module regexp.

Inductive re : Type :=
| Void
| Eps
| Class (p : ascii -> bool)
| Cat (r1 r2 : re)
| Alt (r1 r2 : re)
| Star (r : re).

Fixpoint nullable (r : re) : bool :=
  match r with
  | Void => false
  | Eps => true
  | Class _ => false
  | Cat r1 r2 => nullable r1 && nullable r2
  | Alt r1 r2 => nullable r1 || nullable r2
  | Star _ => true
  end.

(** Brzozowski derivative. *)
Fixpoint deriv (c : ascii) (r : re) : re :=
  match r with
  | Void => Void
  | Eps => Void
  | Class p => if p c then Eps else Void
  | Cat r1 r2 =>
      if nullable r1
      then Alt (Cat (deriv c r1) r2) (deriv c r2)
      else Cat (deriv c r1) r2
  | Alt r1 r2 => Alt (deriv c r1) (deriv c r2)
  | Star r1 => Cat (deriv c r1) (Star r1)
  end.

(** [regexp.MustCompile("^" + r + "$").MatchString(s)] *)
Fixpoint MatchString (r : re) (s : string) : bool :=
  match s with
  | EmptyString => nullable r
  | String c s' => MatchString (deriv c r) s'
  end.

(** Derived forms. *)
Definition Char (c : ascii) : re := Class (Ascii.eqb c).
Fixpoint literal (s : string) : re :=
  match s with
  | EmptyString => Eps
  | String c s' => Cat (Char c) (literal s')
  end.
Definition optional (r : re) : re := Alt r Eps.
(** "(?:r)+" *)
Definition repeated (r : re) : re := Cat r (Star r).
(** [r{n}] *)
Fixpoint times (n : nat) (r : re) : re :=
  match n with
  | O => Eps
  | S n' => Cat r (times n' r)
  end.
(** [r{n,}] *)
Definition atLeast (n : nat) (r : re) : re := Cat (times n r) (Star r).
(** [r{0,n}] *)
Fixpoint upTo (n : nat) (r : re) : re :=
  match n with
  | O => Eps
  | S n' => optional (Cat r (upTo n' r))
  end.

(** Character classes. *)
Definition lower := strings.is_lower.
Definition upper := strings.is_upper.
Definition digit := strings.is_digit.
Definition oneOf (chars : string) (c : ascii) : bool :=
  strings.ContainsRune chars c.
Definition orC (p q : ascii -> bool) (c : ascii) : bool := p c || q c.
Definition alpha := orC lower upper.
Definition alnum := orC alpha digit.
(** [\w] *)
Definition word := orC alnum (oneOf "_").
(** [[:xdigit:]] *)
Definition xdigit := orC digit (oneOf "abcdefABCDEF").
(** [[a-f0-9]] *)
Definition lowerhex := orC digit (oneOf "abcdef").

End regexp.

(* ================================================================== *)
(** * Digests ([github.com/opencontainers/go-digest], v1.0.0-rc1) *)
(* ================================================================== *)

Module digest.
Import regexp.

Definition ErrDigestInvalidFormat : error := New "invalid checksum digest format".
Definition ErrDigestInvalidLength : error := New "invalid checksum digest length".
Definition ErrDigestUnsupported : error := New "unsupported digest algorithm".

(** [DigestRegexp] is "[a-z0-9]+(?:[.+_-][a-z0-9]+)*:[a-zA-Z0-9=_-]+" *)
Definition DigestRegexp : re :=
  Cat (repeated (Class (orC lower digit)))
 (Cat (Star (Cat (Class (oneOf ".+_-")) (repeated (Class (orC lower digit)))))
 (Cat (Char ":")
      (repeated (Class (orC alnum (oneOf "=_-")))))).

(** [Algorithm.Size()] of the registered algorithms ([SHA256], [SHA384],
    [SHA512], all linked into the binary); [None] when the algorithm is
    not available. *)
Definition Size (algorithm : string) : option nat :=
  if String.eqb algorithm "sha256" then Some 32
  else if String.eqb algorithm "sha384" then Some 48
  else if String.eqb algorithm "sha512" then Some 64
  else None.

(** [Algorithm.Validate(encoded)], for an available algorithm of the
    given size: the anchored regexp is "^[a-f0-9]{n}$" with [n = 2 * size]. *)
Definition Algorithm_Validate (size : nat) (encoded : string) : option error :=
  if negb (size * 2 =? String.length encoded)%nat then Some ErrDigestInvalidLength
  else if MatchString (times (size * 2) (Class lowerhex)) encoded then None
  else Some ErrDigestInvalidFormat.

(** [Digest.Validate()] *)
Definition Validate (s : string) : option error :=
  match strings.IndexRune s ":" with
  | None => Some ErrDigestInvalidFormat
  | Some i =>
      if (i =? 0)%nat || (i + 1 =? String.length s)%nat
      then Some ErrDigestInvalidFormat
      else
        let algorithm := strings.take i s in
        let encoded := strings.drop (i + 1) s in
        match Size algorithm with
        | None =>
            if negb (MatchString DigestRegexp s)
            then Some ErrDigestInvalidFormat
            else Some ErrDigestUnsupported
        | Some size => Algorithm_Validate size encoded
        end
  end.

(** [digest.Parse(s)] *)
Definition Parse (s : string) : result string :=
  match Validate s with
  | None => Ok s
  | Some e => Err e
  end.

End digest.

(* ================================================================== *)
(** * Image references ([github.com/docker/distribution/reference]) *)
(* ================================================================== *)

Module reference.
Import regexp.

(** ** The grammar ([regexp.go]) *)

(** "[a-z0-9]+" *)
Definition alphaNumericRegexp : re := repeated (Class (orC lower digit)).
(** One period, one or two underscores, or any number of dashes:
    the alternation of "[._]", "__" and "[-]*". *)
Definition separatorRegexp : re :=
  Alt (Class (oneOf "._")) (Alt (literal "__") (Star (Char "-"))).
Definition nameComponentRegexp : re :=
  Cat alphaNumericRegexp
      (optional (repeated (Cat separatorRegexp alphaNumericRegexp))).
(** "(?:[a-zA-Z0-9]|[a-zA-Z0-9][a-zA-Z0-9-]*[a-zA-Z0-9])" *)
Definition domainComponentRegexp : re :=
  Alt (Class alnum)
      (Cat (Class alnum)
           (Cat (Star (Class (orC alnum (oneOf "-")))) (Class alnum))).
Definition DomainRegexp : re :=
  Cat domainComponentRegexp
 (Cat (optional (repeated (Cat (Char ".") domainComponentRegexp)))
      (optional (Cat (Char ":") (repeated (Class digit))))).
(** "[\w][\w.-]{0,127}" *)
Definition TagRegexp : re :=
  Cat (Class word) (upTo 127 (Class (orC word (oneOf ".-")))).
(** An algorithm "[A-Za-z][A-Za-z0-9]*", any number of further algorithm
    components "[-_+.][A-Za-z][A-Za-z0-9]*", then "[:][[:xdigit:]]{32,}". *)
Definition DigestRegexp : re :=
  Cat (Class alpha)
 (Cat (Star (Class alnum))
 (Cat (Star (Cat (Class (oneOf "-_+."))
                 (Cat (Class alpha) (Star (Class alnum)))))
 (Cat (Char ":")
      (atLeast 32 (Class xdigit))))).
Definition NameRegexp : re :=
  Cat (optional (Cat DomainRegexp (Char "/")))
 (Cat nameComponentRegexp
      (optional (repeated (Cat (Char "/") nameComponentRegexp)))).
Definition ReferenceRegexp : re :=
  Cat NameRegexp
 (Cat (optional (Cat (Char ":") TagRegexp))
      (optional (Cat (Char "@") DigestRegexp))).
(** "([a-f0-9]{64})" *)
Definition IdentifierRegexp : re := times 64 (Class lowerhex).

(** ** Submatches

    The delimiters of the grammar are outside the classes next to them
    (no ['/'] in a domain, a path component, a tag or a digest; no ['@']
    in a name or a tag; [':'] in a name only inside the domain, before a
    ['/']), so a string has at most one decomposition, found by cutting at
    the delimiters; the pieces are then matched against their regexps. *)

(** [anchoredNameRegexp.FindStringSubmatch(name)]: the domain and path
    captures. The optional domain group is tried first. *)
Definition anchoredNameRegexp_FindStringSubmatch (name : string)
  : option (string * string) :=
  let component := MatchString nameComponentRegexp in
  match strings.Split name "/" with
  | [] => None
  | [x] => if component x then Some (EmptyString, name) else None
  | d :: rest =>
      if MatchString DomainRegexp d && forallb component rest
      then Some (d, strings.Join rest "/")
      else if forallb component (d :: rest)
           then Some (EmptyString, name)
           else None
  end.

(** A capture group that did not take part in the match reads as the empty string. *)
Definition capture (o : option string) : string :=
  match o with Some s => s | None => EmptyString end.

Definition matchOpt (r : re) (o : option string) : bool :=
  match o with Some s => MatchString r s | None => true end.

(** The name and the optional tag of the text before the ['@']: the tag
    delimiter is the first [':'] with no ['/'] after it. *)
Fixpoint splitNameTag (s : string) : string * option string :=
  match s with
  | EmptyString => (EmptyString, None)
  | String a s' =>
      if Ascii.eqb a ":" && negb (strings.ContainsRune s' "/")
      then (EmptyString, Some s')
      else let (n, t) := splitNameTag s' in (String a n, t)
  end.

(** [ReferenceRegexp.FindStringSubmatch(s)]: the name, tag and digest
    captures, [None] when [s] does not match. That it succeeds exactly on
    the strings [ReferenceRegexp] matches, with the captures of any
    decomposition along the regular expression, is proved below
    ([ReferenceRegexp_FindStringSubmatch_iff], [FindStringSubmatch_complete]). *)
Definition ReferenceRegexp_FindStringSubmatch (s : string)
  : option (string * string * string) :=
  let (front, dgst) := strings.Cut s "@" in
  let (name, tag) := splitNameTag front in
  match anchoredNameRegexp_FindStringSubmatch name with
  | None => None
  | Some _ =>
      if matchOpt TagRegexp tag && matchOpt DigestRegexp dgst
      then Some (name, capture tag, capture dgst)
      else None
  end.

(** ** References ([reference.go]) *)

Definition NameTotalLengthMax : nat := 255.

Definition ErrReferenceInvalidFormat : error := New "invalid reference format".
Definition ErrNameContainsUppercase : error := New "repository name must be lowercase".
Definition ErrNameEmpty : error := New "repository name must have at least one component".
Definition ErrNameTooLong : error :=
  New "repository name must not be more than 255 characters".

Record repository : Type := { domain : string; path : string }.

(** The struct [reference]: every field present, possibly empty. *)
Record reference : Type :=
  { namedRepository : repository; tag : string; digest : string }.

(** The implementations of the interface [Named]. *)
Inductive Named : Type :=
| Repository (r : repository)
| canonicalReference (r : repository) (d : string)
| taggedReference (r : repository) (t : string)
| fullReference (r : reference).

(** The implementations of the interface [Reference]. *)
Inductive Reference : Type :=
| digestReference (d : string)
| named (n : Named).

(** [repository.Name()] *)
Definition repository_Name (r : repository) : string :=
  if String.eqb r.(domain) "" then r.(path)
  else r.(domain) ++ "/" ++ r.(path).

Definition repo (n : Named) : repository :=
  match n with
  | Repository r => r
  | canonicalReference r _ => r
  | taggedReference r _ => r
  | fullReference r => r.(namedRepository)
  end.

(** [Named.Name()] *)
Definition Name (n : Named) : string := repository_Name (repo n).

(** [reference.Domain(named)] *)
Definition Domain (n : Named) : string := (repo n).(domain).

(** The type assertion [ref.(Tagged)] followed by [Tag()]. *)
Definition Tag (n : Named) : option string :=
  match n with
  | taggedReference _ t => Some t
  | fullReference r => Some r.(tag)
  | _ => None
  end.

(** The type assertion [ref.(Digested)] followed by [Digest()]. *)
Definition Digest (n : Named) : option string :=
  match n with
  | canonicalReference _ d => Some d
  | fullReference r => Some r.(digest)
  | _ => None
  end.

(** [Reference.String()] *)
Definition Named_String (n : Named) : string :=
  match n with
  | Repository r => repository_Name r
  | canonicalReference r d => repository_Name r ++ "@" ++ d
  | taggedReference r t => repository_Name r ++ ":" ++ t
  | fullReference r =>
      repository_Name r.(namedRepository) ++ ":" ++ r.(tag) ++ "@" ++ r.(digest)
  end.

Definition Reference_String (r : Reference) : string :=
  match r with
  | digestReference d => d
  | named n => Named_String n
  end.

(** The type assertion [ref.(Named)]. *)
Definition asNamed (r : Reference) : option Named :=
  match r with
  | digestReference _ => None
  | named n => Some n
  end.

(** [getBestReferenceType(ref)]; [None] is the nil interface. *)
Definition getBestReferenceType (ref : reference) : option Reference :=
  if String.eqb (repository_Name ref.(namedRepository)) "" then
    if negb (String.eqb ref.(digest) "")
    then Some (digestReference ref.(digest))
    else None
  else if String.eqb ref.(tag) "" then
    if negb (String.eqb ref.(digest) "")
    then Some (named (canonicalReference ref.(namedRepository) ref.(digest)))
    else Some (named (Repository ref.(namedRepository)))
  else if String.eqb ref.(digest) ""
    then Some (named (taggedReference ref.(namedRepository) ref.(tag)))
    else Some (named (fullReference ref)).

(** [reference.Parse(s)] *)
Definition Parse (s : string) : result Reference :=
  match ReferenceRegexp_FindStringSubmatch s with
  | None =>
      if String.eqb s "" then Err ErrNameEmpty
      else match ReferenceRegexp_FindStringSubmatch (strings.ToLower s) with
           | Some _ => Err ErrNameContainsUppercase
           | None => Err ErrReferenceInvalidFormat
           end
  | Some (name, tg, dgst) =>
      if (NameTotalLengthMax <? String.length name)%nat then Err ErrNameTooLong
      else
        let repo :=
          match anchoredNameRegexp_FindStringSubmatch name with
          | Some (d, p) => {| domain := d; path := p |}
          | None => {| domain := ""; path := name |}
          end in
        let parsed (d : string) :=
          match getBestReferenceType
                  {| namedRepository := repo; tag := tg; digest := d |} with
          | None => Err ErrNameEmpty
          | Some r => Ok r
          end in
        if negb (String.eqb dgst "") then
          match digest.Parse dgst with
          | Err e => Err e
          | Ok d => parsed d
          end
        else parsed ""
  end.

(** ** Normalization ([normalize.go]) *)

Definition legacyDefaultDomain : string := "index.docker.io".
Definition defaultDomain : string := "docker.io".
Definition officialRepoName : string := "library".

(** [splitDockerDomain(name)] *)
Definition splitDockerDomain (name : string) : string * string :=
  let '(domain, remainder) :=
    match strings.IndexRune name "/" with
    | None => (defaultDomain, name)
    | Some i =>
        if negb (strings.ContainsAny (strings.take i name) ".:")
           && negb (String.eqb (strings.take i name) "localhost")
        then (defaultDomain, name)
        else (strings.take i name, strings.drop (i + 1) name)
    end in
  let domain :=
    if String.eqb domain legacyDefaultDomain then defaultDomain else domain in
  let remainder :=
    if String.eqb domain defaultDomain && negb (strings.Contains remainder "/")
    then officialRepoName ++ "/" ++ remainder
    else remainder in
  (domain, remainder).

(** [ParseNormalizedNamed(s)]. [strings.ToLower] is modelled on ASCII
    letters; a name with other letters is rejected by [Parse] in any
    case. *)
Definition ParseNormalizedNamed (s : string) : result Named :=
  if MatchString IdentifierRegexp s then
    Err (New ("invalid repository name (" ++ s
              ++ "), cannot specify 64-byte hexadecimal strings"))
  else
    let (domain, remainder) := splitDockerDomain s in
    let remoteName :=
      match strings.IndexRune remainder ":" with
      | Some tagSep => strings.take tagSep remainder
      | None => remainder
      end in
    if negb (String.eqb (strings.ToLower remoteName) remoteName) then
      Err (New "invalid reference format: repository name must be lowercase")
    else
      match Parse (domain ++ "/" ++ remainder) with
      | Err e => Err e
      | Ok ref =>
          match asNamed ref with
          | None => Err (New ("reference " ++ Reference_String ref ++ " has no name"))
          | Some n => Ok n
          end
      end.

End reference.

(* ================================================================== *)
(** * Data of the collaborating packages *)
(* ================================================================== *)

(** [github.com/docker/cnab-to-oci/remotes]: the events of the relocation
    engine. *)
Module remotes.

(** [FixupEventType] is a string type. *)
Definition FixupEventType : Type := string.
Definition FixupEventTypeCopyImageStart : FixupEventType := "CopyImageStart".
Definition FixupEventTypeCopyImageEnd : FixupEventType := "CopyImageEnd".
Definition FixupEventTypeProgress : FixupEventType := "Progress".

(** The fields of [FixupEvent] that [publish.go] reads. *)
Record FixupEvent : Type :=
  { EventType : FixupEventType;
    SourceImage : string;
    Error : option error }.

End remotes.

(** [types.ImagePushOptions] *)
Record ImagePushOptions : Type :=
  { All : bool; RegistryAuth : string }.

(** A descriptor ([dist.Descriptor], and the result of [remotes.Push]). *)
Record Descriptor : Type := { Digest : string }.

(** [registry.DistributionInspect] *)
Record DistributionInspect : Type := { Descriptor_ : Descriptor }.

(** The line feed written by [Fprintln] and by a trailing [\n]. *)
Definition LF : string := String "010"%char EmptyString.

(* ================================================================== *)
(** * The Porter value and the options *)
(* ================================================================== *)

(** The fields of [p.Config.Manifest] that [publish.go] reads. *)
Record Manifest : Type := { Image : string; BundleTag : string }.

(** [*Porter]: the loaded manifest ([p.Config.Manifest]) and the text
    written so far to [p.Out]. *)
Record Porter : Type := { Config_Manifest : Manifest; Out : string }.

(** [bundleFileOptions]; [publish.go] reads the field [File] only. *)
Record bundleFileOptions : Type := { File : string }.

(** [PublishOptions] *)
Record PublishOptions : Type :=
  { bundleFileOptions_ : bundleFileOptions;
    InsecureRegistry : bool }.

(** [fmt.Fprint(p.Out, text)] *)
Definition Fprint (text : string) (p : Porter) : Porter :=
  {| Config_Manifest := p.(Config_Manifest); Out := p.(Out) ++ text |}.

(* ================================================================== *)
(** * The digest rewriter and the reference parser of [publish.go] *)
(* ================================================================== *)

(** [parseOCIReference] *)
Definition parseOCIReference (ociRef : string) : result reference.Named :=
  reference.ParseNormalizedNamed ociRef.

(** [(p *Porter) rewriteImageWithDigest]; the receiver is not used. *)
Definition rewriteImageWithDigest (InvocationImage : string) (digest : string)
  : result string :=
  match reference.Parse InvocationImage with
  | Err err => Err (New ("unable to parse docker image: " ++ Error err))
  | Ok ref =>
      match reference.asNamed ref with
      | None => Err (New "had an issue with the docker image")
      | Some named => Ok (reference.Name named ++ "@" ++ digest)
      end
  end.

(** [(p *Porter) displayEvent] *)
Definition displayEvent (ev : remotes.FixupEvent) (p : Porter) : Porter :=
  if String.eqb ev.(remotes.EventType) remotes.FixupEventTypeCopyImageStart then
    Fprint ("Starting to copy image " ++ ev.(remotes.SourceImage) ++ "..." ++ LF) p
  else if String.eqb ev.(remotes.EventType) remotes.FixupEventTypeCopyImageEnd then
    match ev.(remotes.Error) with
    | Some err =>
        Fprint ("Failed to copy image " ++ ev.(remotes.SourceImage) ++ ": "
                ++ Error err ++ LF) p
    | None =>
        Fprint ("Completed image " ++ ev.(remotes.SourceImage) ++ " copy" ++ LF) p
    end
  else p.

(* ================================================================== *)
(** * The collaborators of a publish run *)
(* ================================================================== *)

(** What [publish.go] calls outside itself. The methods of [Porter] and of
    its configuration that live in other files of the package take and
    return the [Porter] value; the calls into other packages are given by
    their outcome in the run, as a function of their arguments. *)
Record Externals : Type :=
  { (** opaque data *)
    PorterContext : Type;    (* portercontext.Context *)
    DockerCli : Type;        (* command.DockerCli *)
    RepositoryInfo : Type;   (* registry.RepositoryInfo *)
    AuthConfig : Type;       (* types.AuthConfig *)
    PushResponse : Type;     (* io.ReadCloser *)
    Bundle : Type;           (* bundle.Bundle *)
    ConfigFile : Type;       (* configfile.ConfigFile *)
    ResolverConfig : Type;   (* remotes.ResolverConfig *)
    Resolver : Type;         (* remotes.Resolver *)

    (** methods defined in other files of the package *)
    bundleFileOptions_Validate :
      bundleFileOptions -> PorterContext -> bundleFileOptions * option error;
    LoadManifestFrom : string -> Porter -> Porter * option error;
    LoadManifest : Porter -> Porter * option error;
    EnsureBundleIsUpToDate : bundleFileOptions -> Porter -> Porter * option error;
    buildBundle : string -> string -> Porter -> Porter * option error;

    (** [p.Config.FileSystem.ReadFile]: the bytes and the error returned *)
    ReadFile : string -> string * option error;
    (** [bundle.ParseReader(bytes.NewBuffer(b))] *)
    ParseReader : string -> result Bundle;

    (** the Docker command line and client *)
    NewDockerCli : result DockerCli;
    Initialize : DockerCli -> option error;
    ParseRepositoryInfo : reference.Named -> result RepositoryInfo;
    ResolveAuthConfig : DockerCli -> RepositoryInfo -> AuthConfig;
    EncodeAuthToBase64 : AuthConfig -> result string;
    ImagePush : DockerCli -> string -> ImagePushOptions -> result PushResponse;
    (** [jsonmessage.DisplayJSONMessagesStream]: the text it writes to
        [p.Out] and the error it returns *)
    DisplayJSONMessagesStream : PushResponse -> string * option error;
    DistributionInspect_ : DockerCli -> string -> string -> result DistributionInspect;

    (** the resolver and the relocation engine *)
    (** [dockerconfig.LoadDefaultConfigFile(p.Out)]: the warning it writes
        and the configuration *)
    LoadDefaultConfigFile : string * ConfigFile;
    NewResolverConfigFromDockerConfigFile : ConfigFile -> list string -> ResolverConfig;
    ResolverConfig_Resolver : ResolverConfig -> Resolver;
    (** [remotes.FixupBundle]: the events handed to the callback, in order,
        the bundle as rewritten in place, and the error returned *)
    FixupBundle :
      Bundle -> reference.Named -> ResolverConfig ->
      list remotes.FixupEvent * Bundle * option error;
    Push : Bundle -> reference.Named -> Resolver -> result Descriptor;

    (** [strconv.Quote], the verb [%q] of [fmt] on a string *)
    Quote : string -> string }.

Section Pipeline.

Variable E : Externals.

(** ** The record of a run *)

(** The operations of a run: the calls to collaborators with their
    arguments, and the steps of [publish.go] itself that can fail. *)
Inductive Op : Type :=
| OpLoadManifestFrom (file : string)
| OpLoadManifest
| OpEnsureBundleIsUpToDate (opts : bundleFileOptions)
| OpNewDockerCli
| OpInitialize
| OpParseInvocationImage (ociRef : string)
| OpParseRepositoryInfo (ref : reference.Named)
| OpEncodeAuthToBase64
| OpImagePush (image : string) (options : ImagePushOptions)
| OpDisplayJSONMessagesStream
| OpDistributionInspect (image : string) (encodedAuth : string)
| OpRewriteImageWithDigest (image : string) (digest : string)
| OpBuildBundle (taggedImage : string) (digest : string)
| OpReadFile (name : string)
| OpParseReader (b : string)
| OpRequireBundleTag (tag : string)
| OpParseBundleTag (ociRef : string)
| OpCreateResolver (insecureRegistries : list string) (rc : E.(ResolverConfig))
| OpFixupBundle (bun : E.(Bundle)) (ref : reference.Named) (rc : E.(ResolverConfig))
| OpPush (bun : E.(Bundle)) (ref : reference.Named) (resolver : E.(Resolver)).

(** An operation that was performed, with the error it returned. *)
Definition Event : Type := (Op * option error)%type.

Record State : Type := { porter : Porter; calls : list Event }.

Definition start (p : Porter) : State := {| porter := p; calls := [] |}.

(** ** Computations: state passing with early return on error *)

Definition M (A : Type) : Type := State -> result A * State.

Definition ret {A} (a : A) : M A := fun st => (Ok a, st).

Definition raise {A} (e : error) : M A := fun st => (Err e, st).

Definition bind {A B} (c : M A) (k : A -> M B) : M B :=
  fun st =>
    match c st with
    | (Ok a, st') => k a st'
    | (Err e, st') => (Err e, st')
    end.

(** [if err != nil { return f(err) }] around [c]. *)
Definition onError {A} (f : error -> error) (c : M A) : M A :=
  fun st =>
    match c st with
    | (Ok a, st') => (Ok a, st')
    | (Err e, st') => (Err (f e), st')
    end.

(** [if err != nil { return errors.Wrap(err, msg) }] around [c]. *)
Definition wrap {A} (msg : string) (c : M A) : M A :=
  onError (fun err => Wrap err msg) c.

Definition record (ev : Event) (st : State) : State :=
  {| porter := st.(porter); calls := (st.(calls) ++ [ev])%list |}.

(** An operation with the given outcome, checked by the caller. *)
Definition call {A} (op : Op) (r : result A) : M A :=
  fun st => (r, record (op, err_of r) st).

(** An operation whose error the caller never reads: in
    [b, err := f(); bun, err := g(b)] the first [err] is assigned again
    before any test. *)
Definition callUnchecked {A} (op : Op) (out : A * option error) : M A :=
  fun st => (Ok (fst out), record (op, snd out) st).

(** A method that updates the [Porter] value and returns an error. *)
Definition method (op : Op) (f : Porter -> Porter * option error) : M unit :=
  fun st =>
    let (p', err) := f st.(porter) in
    (match err with Some e => Err e | None => Ok tt end,
     {| porter := p'; calls := (st.(calls) ++ [(op, err)])%list |}).

(** Text written to [p.Out]. *)
Definition write (text : string) : M unit :=
  fun st => (Ok tt, {| porter := Fprint text st.(porter); calls := st.(calls) |}).

(** A read of [p.Config.Manifest]. *)
Definition manifest : M Manifest :=
  fun st => (Ok st.(porter).(Config_Manifest), st).

End Pipeline.

Arguments OpLoadManifest {E}.
Arguments OpNewDockerCli {E}.
Arguments OpInitialize {E}.
Arguments OpEncodeAuthToBase64 {E}.
Arguments OpDisplayJSONMessagesStream {E}.
Arguments OpLoadManifestFrom {E} file.
Arguments OpEnsureBundleIsUpToDate {E} opts.
Arguments OpParseInvocationImage {E} ociRef.
Arguments OpParseBundleTag {E} ociRef.
Arguments OpParseRepositoryInfo {E} ref.
Arguments OpImagePush {E} image options.
Arguments OpDistributionInspect {E} image encodedAuth.
Arguments OpRewriteImageWithDigest {E} image digest.
Arguments OpBuildBundle {E} taggedImage digest.
Arguments OpReadFile {E} name.
Arguments OpParseReader {E} b.
Arguments OpRequireBundleTag {E} tag.
Arguments OpCreateResolver {E} insecureRegistries rc.
Arguments OpFixupBundle {E} bun ref rc.
Arguments OpPush {E} bun ref resolver.
Arguments ret {E A} a.
Arguments raise {E A} e.
Arguments bind {E A B} c k.
Arguments onError {E A} f c.
Arguments wrap {E A} msg c.
Arguments call {E A} op r.
Arguments callUnchecked {E A} op out.
Arguments record {E} ev st.
Arguments method {E} op f.
Arguments write {E} text.
Arguments manifest {E}.
Arguments start {E} p.
Arguments porter {E} s.
Arguments calls {E} s.

Declare Scope go_scope.
Delimit Scope go_scope with go.
Notation "x <- c ;; k" := (bind c (fun x => k))
  (at level 61, c at next level, right associativity) : go_scope.
Notation "c ;; k" := (bind c (fun _ => k))
  (at level 61, right associativity) : go_scope.

(* ================================================================== *)
(** * [publish.go] *)
(* ================================================================== *)

Section Publish.

Variable E : Externals.

Local Open Scope go_scope.

(** [(o *PublishOptions) Validate]: the receiver as updated by the
    embedded validation, and the error. *)
Definition Validate (o : PublishOptions) (cxt : E.(PorterContext))
  : PublishOptions * option error :=
  let (b, err) := E.(bundleFileOptions_Validate) o.(bundleFileOptions_) cxt in
  let o' := {| bundleFileOptions_ := b; InsecureRegistry := o.(InsecureRegistry) |} in
  match err with
  | Some e => (o', Some e)
  | None =>
      if String.eqb b.(File) "" then
        (o', Some (New "could not find porter.yaml in the current directory, make sure you are in the right directory or specify the porter manifest with --file"))
      else (o', None)
  end.

(** [(p *Porter) createResolver] *)
Definition createResolver (insecureRegistries : list string)
  : M E E.(ResolverConfig) :=
  let (warning, cfg) := E.(LoadDefaultConfigFile) in
  write warning ;;
  let rc := E.(NewResolverConfigFromDockerConfigFile) cfg insecureRegistries in
  call (OpCreateResolver insecureRegistries rc) (Ok rc).

(** [(p *Porter) getDockerClient] *)
Definition getDockerClient : M E E.(DockerCli) :=
  cli <- wrap "could not create new docker client"
           (call OpNewDockerCli E.(NewDockerCli)) ;;
  call OpInitialize
       (match E.(Initialize) cli with Some e => Err e | None => Ok tt end) ;;
  ret cli.

(** [jsonmessage.DisplayJSONMessagesStream(pushResponse, p.Out, ...)] *)
Definition displayJSONMessagesStream (pushResponse : E.(PushResponse)) : M E unit :=
  let (text, err) := E.(DisplayJSONMessagesStream) pushResponse in
  write text ;;
  call OpDisplayJSONMessagesStream
       (match err with Some e => Err e | None => Ok tt end).

(** [(p *Porter) publishInvocationImage] *)
Definition publishInvocationImage (cli : E.(DockerCli)) : M E string :=
  m <- manifest ;;
  ref <- call (OpParseInvocationImage m.(Image)) (parseOCIReference m.(Image)) ;;
  repoInfo <- call (OpParseRepositoryInfo ref) (E.(ParseRepositoryInfo) ref) ;;
  let authConfig := E.(ResolveAuthConfig) cli repoInfo in
  encodedAuth <- call OpEncodeAuthToBase64 (E.(EncodeAuthToBase64) authConfig) ;;
  let options := {| All := true; RegistryAuth := encodedAuth |} in
  m <- manifest ;;
  pushResponse <- wrap "docker push failed"
                    (call (OpImagePush m.(Image) options)
                          (E.(ImagePush) cli m.(Image) options)) ;;
  onError (fun err =>
             if strings.HasPrefix (Error err) "denied"
             then Wrap err "docker push authentication failed"
             else Wrap err "failed to stream docker push stdout")
          (displayJSONMessagesStream pushResponse) ;;
  m <- manifest ;;
  dist <- wrap "unable to inspect docker image"
            (call (OpDistributionInspect m.(Image) encodedAuth)
                  (E.(DistributionInspect_) cli m.(Image) encodedAuth)) ;;
  ret dist.(Descriptor_).(Digest).

(** [remotes.FixupBundle(..., remotes.WithEventCallback(p.displayEvent))]:
    the callback runs on every event, then the error is returned. *)
Definition fixupBundle (bun : E.(Bundle)) (ref : reference.Named)
           (rc : E.(ResolverConfig)) : M E E.(Bundle) :=
  fun st =>
    let '(events, bun', err) := E.(FixupBundle) bun ref rc in
    let p' := fold_left (fun p ev => displayEvent ev p) events st.(porter) in
    (match err with Some e => Err e | None => Ok bun' end,
     {| porter := p'; calls := (st.(calls) ++ [(OpFixupBundle bun ref rc, err)])%list |}).

(** [(p *Porter) Publish] *)
Definition Publish (opts : PublishOptions) : M E unit :=
  (if negb (String.eqb opts.(bundleFileOptions_).(File) "")
   then method (OpLoadManifestFrom opts.(bundleFileOptions_).(File))
               (E.(LoadManifestFrom) opts.(bundleFileOptions_).(File))
   else method OpLoadManifest E.(LoadManifest)) ;;
  method (OpEnsureBundleIsUpToDate opts.(bundleFileOptions_))
         (E.(EnsureBundleIsUpToDate) opts.(bundleFileOptions_)) ;;
  cli <- getDockerClient ;;
  write ("Pushing CNAB invocation image..." ++ LF) ;;
  digest <- wrap "unable to push CNAB invocation image"
              (publishInvocationImage cli) ;;
  m <- manifest ;;
  taggedImage <- wrap "unable to update invocation image reference: %s"
                   (call (OpRewriteImageWithDigest m.(Image) digest)
                         (rewriteImageWithDigest m.(Image) digest)) ;;
  write (LF ++ "Generating CNAB bundle.json..." ++ LF) ;;
  wrap "unable to generate CNAB bundle.json"
       (method (OpBuildBundle taggedImage digest)
               (E.(buildBundle) taggedImage digest)) ;;
  b <- callUnchecked (OpReadFile "cnab/bundle.json")
                     (E.(ReadFile) "cnab/bundle.json") ;;
  bun <- wrap "unable to load CNAB bundle"
           (call (OpParseReader b) (E.(ParseReader) b)) ;;
  m <- manifest ;;
  call (OpRequireBundleTag m.(BundleTag))
       (if String.eqb m.(BundleTag) ""
        then Err (New "porter.yaml must specify a `tag` value for this bundle")
        else Ok tt) ;;
  m <- manifest ;;
  ref <- wrap "invalid bundle tag reference. expected value is REGISTRY/bundle:tag"
           (call (OpParseBundleTag m.(BundleTag))
                 (parseOCIReference m.(BundleTag))) ;;
  let insecureRegistries : list string := [] in
  let insecureRegistries :=
    if opts.(InsecureRegistry)
    then (insecureRegistries ++ [reference.Domain ref])%list
    else insecureRegistries in
  resolverConfig <- createResolver insecureRegistries ;;
  bun <- fixupBundle bun ref resolverConfig ;;
  d <- call (OpPush bun ref (E.(ResolverConfig_Resolver) resolverConfig))
            (E.(Push) bun ref (E.(ResolverConfig_Resolver) resolverConfig)) ;;
  write ("Bundle tag " ++ reference.Named_String ref
         ++ " pushed successfully, with digest " ++ E.(Quote) d.(Digest) ++ LF) ;;
  ret tt.

End Publish.

Arguments Validate E o cxt : clear implicits.
Arguments createResolver E insecureRegistries : clear implicits.
Arguments getDockerClient E : clear implicits.
Arguments displayJSONMessagesStream E pushResponse : clear implicits.
Arguments publishInvocationImage E cli : clear implicits.
Arguments fixupBundle E bun ref rc : clear implicits.
Arguments Publish E opts : clear implicits.

(* ================================================================== *)
(** * Sample runs *)
(* ================================================================== *)

Module sample.

Definition pushedDigest : string :=
  "sha256:aaaaaaaaaaaaaaaaaaaaaaaaaaaaaaaaaaaaaaaaaaaaaaaaaaaaaaaaaaaaaaaa".
Definition bundleDigest : string :=
  "sha256:bbbbbbbbbbbbbbbbbbbbbbbbbbbbbbbbbbbbbbbbbbbbbbbbbbbbbbbbbbbbbbbb".

Definition quote (s : string) : string :=
  String "034"%char (s ++ String "034"%char EmptyString).

(** A world in which the manifest file holds [m] and every collaborator
    succeeds, except for the errors given: [validateTo] is the [File]
    left by the embedded option validation, [stream] the error of the
    push progress stream, [read] the error of the descriptor read (which
    still returns the bytes read), [fixup] the error of the relocation,
    [inspect] the error of the post-push inspection. *)
Definition world (m : Manifest) (validateTo : string)
           (stream read fixup inspect : option error) : Externals :=
  {| PorterContext := unit;
     DockerCli := unit;
     RepositoryInfo := unit;
     AuthConfig := unit;
     PushResponse := unit;
     Bundle := string;
     ConfigFile := unit;
     ResolverConfig := list string;
     Resolver := list string;
     bundleFileOptions_Validate := fun _ _ => ({| File := validateTo |}, None);
     LoadManifestFrom := fun _ p =>
       ({| Config_Manifest := m; Out := p.(Out) |}, None);
     LoadManifest := fun p =>
       ({| Config_Manifest := m; Out := p.(Out) |}, None);
     EnsureBundleIsUpToDate := fun _ p => (p, None);
     buildBundle := fun _ _ p => (p, None);
     ReadFile := fun _ => ("{}", read);
     ParseReader := fun b =>
       if String.eqb b "" then Err (New "EOF") else Ok b;
     NewDockerCli := Ok tt;
     Initialize := fun _ => None;
     ParseRepositoryInfo := fun _ => Ok tt;
     ResolveAuthConfig := fun _ _ => tt;
     EncodeAuthToBase64 := fun _ => Ok "e30=";
     ImagePush := fun _ _ _ => Ok tt;
     DisplayJSONMessagesStream := fun _ => ("", stream);
     DistributionInspect_ := fun _ _ _ =>
       match inspect with
       | Some e => Err e
       | None => Ok {| Descriptor_ := {| Digest := pushedDigest |} |}
       end;
     LoadDefaultConfigFile := ("", tt);
     NewResolverConfigFromDockerConfigFile := fun _ insecure => insecure;
     ResolverConfig_Resolver := fun rc => rc;
     FixupBundle := fun bun _ _ => ([], bun, fixup);
     Push := fun _ _ _ => Ok {| Digest := bundleDigest |};
     Quote := quote |}.

Definition myapp : Manifest :=
  {| Image := "myapp:v1"; BundleTag := "registry.example.com/bundles/myapp:v1" |}.

Definition untagged : Manifest :=
  {| Image := "myapp:v1"; BundleTag := "" |}.

Definition blank : Porter :=
  {| Config_Manifest := {| Image := ""; BundleTag := "" |}; Out := "" |}.

Definition options (file : string) (insecure : bool) : PublishOptions :=
  {| bundleFileOptions_ := {| File := file |}; InsecureRegistry := insecure |}.

End sample.


(* ================================================================== *)
(** * Properties of runs *)
(* ================================================================== *)

(** A publish run from a fresh record of calls. *)
Definition run (E : Externals) (opts : PublishOptions) (p : Porter)
  : result unit * State E :=
  Publish E opts (start p).

Section RunProperties.

Variable E : Externals.

(** Operations that talk to a registry. *)
Definition registryOp (op : Op E) : bool :=
  match op with
  | OpImagePush _ _ | OpDistributionInspect _ _
  | OpFixupBundle _ _ _ | OpPush _ _ _ => true
  | _ => false
  end.

(** Operations of the relocation and of the final push, and the creation
    of their resolver. *)
Definition afterValidation (op : Op E) : bool :=
  match op with
  | OpCreateResolver _ _ | OpFixupBundle _ _ _ | OpPush _ _ _ => true
  | _ => false
  end.

Definition isRelocation (op : Op E) : bool :=
  match op with
  | OpFixupBundle _ _ _ => true
  | _ => false
  end.

Definition isImagePush (op : Op E) : bool :=
  match op with
  | OpImagePush _ _ => true
  | _ => false
  end.

Definition isCreateResolver (op : Op E) : bool :=
  match op with
  | OpCreateResolver _ _ => true
  | _ => false
  end.

(** The resolver an operation is given, if it takes one. *)
Definition resolverOf (op : Op E) : option E.(Resolver) :=
  match op with
  | OpFixupBundle _ _ rc => Some (E.(ResolverConfig_Resolver) rc)
  | OpPush _ _ resolver => Some resolver
  | _ => None
  end.

(** [performed P st]: some operation satisfying [P] is on record. *)
Definition performed (P : Op E -> bool) (st : State E) : bool :=
  existsb (fun ev : Event E => P (fst ev)) st.(calls).

End RunProperties.


(** The stages of the pipeline, in the order of the state machine. *)
Inductive Stage : Type :=
| ManifestLoaded
| InvocationImagePushed
| InvocationReferencePinned
| BundleDescriptorRead
| BundleTagValidated
| RelocationComplete
| Published.

Definition stageIndex (s : Stage) : nat :=
  match s with
  | ManifestLoaded => 1
  | InvocationImagePushed => 2
  | InvocationReferencePinned => 3
  | BundleDescriptorRead => 4
  | BundleTagValidated => 5
  | RelocationComplete => 6
  | Published => 7
  end.

(** The stage an operation belongs to. *)
Definition stageOf {E : Externals} (op : Op E) : Stage :=
  match op with
  | OpLoadManifestFrom _ | OpLoadManifest | OpEnsureBundleIsUpToDate _ =>
      ManifestLoaded
  | OpNewDockerCli | OpInitialize | OpParseInvocationImage _
  | OpParseRepositoryInfo _ | OpEncodeAuthToBase64 | OpImagePush _ _
  | OpDisplayJSONMessagesStream | OpDistributionInspect _ _ =>
      InvocationImagePushed
  | OpRewriteImageWithDigest _ _ => InvocationReferencePinned
  | OpBuildBundle _ _ | OpReadFile _ | OpParseReader _ => BundleDescriptorRead
  | OpRequireBundleTag _ | OpParseBundleTag _ => BundleTagValidated
  | OpCreateResolver _ _ | OpFixupBundle _ _ _ => RelocationComplete
  | OpPush _ _ _ => Published
  end.

Fixpoint nondecreasing (l : list nat) : bool :=
  match l with
  | a :: (b :: _) as r => (a <=? b)%nat && nondecreasing r
  | _ => true
  end.

Definition isReadFile {E : Externals} (op : Op E) : bool :=
  match op with
  | OpReadFile _ => true
  | _ => false
  end.

(** The error that reaches the caller of [Publish] when the operation [op]
    fails with [e]: the messages are the ones passed to [errors.Wrap] on
    the way out. *)
Definition stageContext {E : Externals} (op : Op E) (e : error) : error :=
  match op with
  | OpNewDockerCli => Wrap e "could not create new docker client"
  | OpParseInvocationImage _ | OpParseRepositoryInfo _ | OpEncodeAuthToBase64 =>
      Wrap e "unable to push CNAB invocation image"
  | OpImagePush _ _ =>
      Wrap (Wrap e "docker push failed") "unable to push CNAB invocation image"
  | OpDisplayJSONMessagesStream =>
      Wrap (Wrap e (if strings.HasPrefix (Error e) "denied"
                    then "docker push authentication failed"
                    else "failed to stream docker push stdout"))
           "unable to push CNAB invocation image"
  | OpDistributionInspect _ _ =>
      Wrap (Wrap e "unable to inspect docker image")
           "unable to push CNAB invocation image"
  | OpRewriteImageWithDigest _ _ =>
      Wrap e "unable to update invocation image reference: %s"
  | OpBuildBundle _ _ => Wrap e "unable to generate CNAB bundle.json"
  | OpParseReader _ => Wrap e "unable to load CNAB bundle"
  | OpParseBundleTag _ =>
      Wrap e "invalid bundle tag reference. expected value is REGISTRY/bundle:tag"
  | OpLoadManifestFrom _ | OpLoadManifest | OpEnsureBundleIsUpToDate _
  | OpInitialize | OpRequireBundleTag _ | OpFixupBundle _ _ _ | OpPush _ _ _
  | OpReadFile _ | OpCreateResolver _ _ => e
  end.

(** The operations whose error [Publish] returns as it is. *)
Definition returnedBare {E : Externals} (op : Op E) : bool :=
  match op with
  | OpLoadManifestFrom _ | OpLoadManifest | OpEnsureBundleIsUpToDate _
  | OpInitialize | OpRequireBundleTag _ | OpFixupBundle _ _ _ | OpPush _ _ _ => true
  | _ => false
  end.

Definition missingBundleTag : error :=
  New "porter.yaml must specify a `tag` value for this bundle".

(** ** The claims that fail, as they are written *)

(** "If the bundle tag is empty, the pipeline fails at the bundle-tag
    validation with a configuration error and no network call occurs." *)
Definition emptyTagFailsBeforeNetwork (E : Externals) (opts : PublishOptions)
           (p : Porter) : Prop :=
  forall r st,
    run E opts p = (r, st) ->
    st.(porter).(Config_Manifest).(BundleTag) = "" ->
    r = Err missingBundleTag /\ performed (@registryOp E) st = false.



(** "For every failing stage the error returned wraps the underlying error
    with stage context, preserving it as the cause." *)
Definition everyFailureWrapped (E : Externals) (opts : PublishOptions)
           (p : Porter) : Prop :=
  forall r st op e0,
    run E opts p = (r, st) ->
    In (op, Some e0) st.(calls) ->
    exists cause msg, r = Err (Wrap cause msg) /\ Cause cause = Cause e0.

(** "The insecure set is the bundle tag's domain when the flag is set and
    empty otherwise; it is supplied to the single resolver used for all
    registry operations in the run." *)
Definition oneResolverForAllRegistryOps (E : Externals) (opts : PublishOptions)
           (p : Porter) : Prop :=
  forall r st,
    run E opts p = (r, st) ->
    (forall insecure rc err,
        In (OpCreateResolver insecure rc, err) st.(calls) ->
        exists ref,
          parseOCIReference st.(porter).(Config_Manifest).(BundleTag) = Ok ref
          /\ insecure = if opts.(InsecureRegistry)
                        then [reference.Domain ref] else [])
    /\ (forall op err,
           In (op, err) st.(calls) ->
           registryOp op = true ->
           exists insecure rc err',
             In (OpCreateResolver insecure rc, err') st.(calls)
             /\ resolverOf op = Some (E.(ResolverConfig_Resolver) rc)).

(** "Pin followed by parse yields a reference with no tag and the digest
    supplied." *)
Definition pinThenParse (image digest : string) : Prop :=
  exists out r,
    rewriteImageWithDigest image digest = Ok out
    /\ parseOCIReference out = Ok r
    /\ reference.Tag r = None
    /\ reference.Digest r = Some digest.

(** Operations that take the resolver of the run. *)
Definition takesResolver {E : Externals} (op : Op E) : bool :=
  match op with
  | OpFixupBundle _ _ _ | OpPush _ _ _ => true
  | _ => false
  end.

Definition isPush {E : Externals} (op : Op E) : bool :=
  match op with
  | OpPush _ _ _ => true
  | _ => false
  end.

Definition stages {E : Externals} (st : State E) : list nat :=
  map (fun ev : Event E => stageIndex (stageOf (fst ev))) st.(calls).

(** Every byte of [s] satisfies [p]. *)
Fixpoint allChars (p : ascii -> bool) (s : string) : bool :=
  match s with
  | EmptyString => true
  | String c s' => p c && allChars p s'
  end.

(** The text of an optional tag and of an optional digest in a reference. *)
Definition tagPart (t : option string) : string :=
  match t with Some t => ":" ++ t | None => "" end.

Definition digestPart (d : option string) : string :=
  match d with Some d => "@" ++ d | None => "" end.

(** The string that [ParseNormalizedNamed] hands to [Parse]. *)
Definition normalizedName (name : string) : string :=
  let (domain, remainder) := reference.splitDockerDomain name in
  domain ++ "/" ++ remainder.

(** The reference [getBestReferenceType] chooses for a non-empty name. *)
Definition bestNamed (r : reference.repository) (tag digest : string)
  : reference.Named :=
  if String.eqb tag "" then
    if negb (String.eqb digest "") then reference.canonicalReference r digest
    else reference.Repository r
  else if String.eqb digest "" then reference.taggedReference r tag
  else reference.fullReference
         {| reference.namedRepository := r;
            reference.tag := tag;
            reference.digest := digest |}.

(** The bytes that some class of [r] admits: a string matched by [r] is
    made of them. *)
Fixpoint accepts (r : regexp.re) (c : ascii) : bool :=
  match r with
  | regexp.Void | regexp.Eps => false
  | regexp.Class p => p c
  | regexp.Cat r1 r2 | regexp.Alt r1 r2 => accepts r1 c || accepts r2 c
  | regexp.Star r1 => accepts r1 c
  end.

(** The path of a name: components separated by ['/']. *)
Definition pathRegexp : regexp.re :=
  regexp.Cat reference.nameComponentRegexp
    (regexp.optional
       (regexp.repeated (regexp.Cat (regexp.Char "/") reference.nameComponentRegexp))).

(** The fields of [l], each after a ['/']. *)
Fixpoint prefixed (l : list string) : string :=
  match l with
  | [] => ""
  | x :: r => "/" ++ x ++ prefixed r
  end.

(** ** Further properties of runs *)

(** The operations that precede the push of the invocation image. *)
Definition beforePush {E : Externals} (op : Op E) : bool :=
  match op with
  | OpLoadManifestFrom _ | OpLoadManifest | OpEnsureBundleIsUpToDate _
  | OpNewDockerCli | OpInitialize | OpParseInvocationImage _
  | OpParseRepositoryInfo _ | OpEncodeAuthToBase64 => true
  | _ => false
  end.

Definition isDistributionInspect {E : Externals} (op : Op E) : bool :=
  match op with
  | OpDistributionInspect _ _ => true
  | _ => false
  end.

(** How many operations satisfying [P] are on record. *)
Definition occurrences {E : Externals} (P : Op E -> bool) (st : State E) : nat :=
  List.length (filter (fun ev : Event E => P (fst ev)) st.(calls)).

(** The events that [displayEvent] reports. *)
Definition isCopyEvent (ev : remotes.FixupEvent) : bool :=
  String.eqb ev.(remotes.EventType) remotes.FixupEventTypeCopyImageStart
  || String.eqb ev.(remotes.EventType) remotes.FixupEventTypeCopyImageEnd.

(** The callback of the relocation applied to a list of events in order. *)
Definition displayEvents (events : list remotes.FixupEvent) (p : Porter) : Porter :=
  fold_left (fun p ev => displayEvent ev p) events p.

(** The last line of a successful run. *)
Definition successLine (E : Externals) (ref : reference.Named) (d : Descriptor)
  : string :=
  "Bundle tag " ++ reference.Named_String ref
  ++ " pushed successfully, with digest " ++ E.(Quote) d.(Digest) ++ LF.

Definition isDefaultLoad {E : Externals} (op : Op E) : bool :=
  match op with
  | OpLoadManifest => true
  | _ => false
  end.

(* ================================================================== *)
(** * Facts about strings *)
(* ================================================================== *)

Unset Implicit Arguments.

#[local] Arguments Ascii.eqb : simpl never.

Section StringFacts.

Import strings.

Lemma append_nil_r (s : string) : s ++ "" = s.
Proof. induction s; cbn; congruence. Qed.

Lemma append_assoc (a b c : string) : (a ++ b) ++ c = a ++ (b ++ c).
Proof. induction a; cbn; congruence. Qed.

Lemma length_append (a b : string) :
  String.length (a ++ b) = (String.length a + String.length b)%nat.
Proof. induction a; cbn; congruence. Qed.

Lemma append_inv_length (a b a' b' : string) :
  a ++ b = a' ++ b' -> String.length a = String.length a' -> a = a' /\ b = b'.
Proof.
  revert a'. induction a as [|x a IH]; intros [|y a'] H Hl; cbn in *;
    try discriminate.
  - auto.
  - injection H as -> H. injection Hl as Hl.
    destruct (IH _ H Hl) as [-> ->]. auto.
Qed.

Lemma append_inv_head (a b b' : string) : a ++ b = a ++ b' -> b = b'.
Proof. induction a; cbn; intros H; [assumption|]. injection H. auto. Qed.

Lemma ContainsRune_app (a b : string) (c : ascii) :
  ContainsRune (a ++ b) c = ContainsRune a c || ContainsRune b c.
Proof.
  induction a as [|x a IH]; cbn; [reflexivity|].
  rewrite IH. apply orb_assoc.
Qed.

Lemma Contains_slash (s : string) : Contains s "/" = ContainsRune s "/".
Proof.
  induction s as [|x s IH]; cbn; [reflexivity|].
  rewrite IH. rewrite andb_true_r.
  rewrite (Ascii.eqb_sym "/" x). reflexivity.
Qed.

(** [Cut] finds the first occurrence. *)
Lemma Cut_none (s : string) (c : ascii) :
  ContainsRune s c = false -> Cut s c = (s, None).
Proof.
  induction s as [|x s IH]; cbn; [reflexivity|].
  destruct (Ascii.eqb x c); cbn; [discriminate|].
  intros H. rewrite (IH H). reflexivity.
Qed.

Lemma Cut_app (a r : string) (c : ascii) :
  ContainsRune a c = false -> Cut (a ++ String c r) c = (a, Some r).
Proof.
  induction a as [|x a IH]; cbn.
  - rewrite Ascii.eqb_refl. reflexivity.
  - destruct (Ascii.eqb x c); cbn; [discriminate|].
    intros H. rewrite (IH H). reflexivity.
Qed.

Lemma Cut_spec (s : string) (c : ascii) :
  match Cut s c with
  | (b, None) => b = s /\ ContainsRune s c = false
  | (b, Some r) => s = b ++ String c r /\ ContainsRune b c = false
  end.
Proof.
  induction s as [|x s IH]; cbn; [auto|].
  destruct (Ascii.eqb_spec x c) as [->|Hne]; cbn; [auto|].
  destruct (Cut s c) as [b [r|]]; destruct IH as [H1 H2]; cbn.
  - subst s. rewrite (proj2 (Ascii.eqb_neq _ _) Hne). auto.
  - subst b. auto.
Qed.

(** [IndexRune] and the slices around it, in terms of [Cut]. *)
Lemma IndexRune_Cut (s : string) (c : ascii) :
  match IndexRune s c with
  | Some i => Cut s c = (take i s, Some (drop (i + 1) s))
  | None => Cut s c = (s, None)
  end.
Proof.
  induction s as [|x s IH]; cbn; [reflexivity|].
  destruct (Ascii.eqb x c); cbn; [reflexivity|].
  destruct (IndexRune s c) as [i|]; rewrite IH; reflexivity.
Qed.

Lemma ToLower_app (a b : string) : ToLower (a ++ b) = ToLower a ++ ToLower b.
Proof. induction a; cbn; congruence. Qed.

Lemma ToLower_length (a : string) : String.length (ToLower a) = String.length a.
Proof. induction a; cbn; congruence. Qed.

Lemma ToLower_app_fixed (a b : string) :
  ToLower (a ++ b) = a ++ b -> ToLower a = a /\ ToLower b = b.
Proof.
  rewrite ToLower_app. intros H.
  apply append_inv_length; [assumption | apply ToLower_length].
Qed.

(** The text up to the first [c]. *)
Lemma Cut_fst_app (a b : string) (c : ascii) :
  fst (Cut (a ++ b) c)
  = if ContainsRune a c then fst (Cut a c) else a ++ fst (Cut b c).
Proof.
  induction a as [|x a IH]; cbn; [reflexivity|].
  destruct (Ascii.eqb x c); cbn; [reflexivity|].
  destruct (Cut (a ++ b) c) as [u v] eqn:H1.
  destruct (Cut a c) as [u' v'] eqn:H2. cbn in *.
  rewrite IH. destruct (ContainsRune a c); reflexivity.
Qed.

End StringFacts.

(* ================================================================== *)
(** * Facts about the matcher *)
(* ================================================================== *)

Section RegexpFacts.

Import regexp.

Lemma MatchString_Void (s : string) : MatchString Void s = false.
Proof. induction s; cbn; auto. Qed.

Lemma MatchString_Alt (r1 r2 : re) (s : string) :
  MatchString (Alt r1 r2) s = MatchString r1 s || MatchString r2 s.
Proof. revert r1 r2. induction s; intros; cbn; auto. Qed.

Lemma MatchString_Cat_Void (r : re) (s : string) :
  MatchString (Cat Void r) s = false.
Proof. induction s; cbn; auto. Qed.

Lemma MatchString_Cat_Eps (r : re) (s : string) :
  MatchString (Cat Eps r) s = MatchString r s.
Proof.
  destruct s as [|c s]; cbn; [reflexivity|].
  rewrite MatchString_Alt, MatchString_Cat_Void. reflexivity.
Qed.

Lemma MatchString_Cat_nullable (r1 r2 : re) (s : string) :
  nullable r1 = true -> MatchString r2 s = true ->
  MatchString (Cat r1 r2) s = true.
Proof.
  intros Hn H. destruct s as [|c s]; cbn in *.
  - rewrite Hn, H. reflexivity.
  - rewrite Hn, MatchString_Alt, H. apply orb_true_r.
Qed.

(** Concatenation of matches. *)
Lemma MatchString_Cat (r1 r2 : re) (s1 s2 : string) :
  MatchString r1 s1 = true -> MatchString r2 s2 = true ->
  MatchString (Cat r1 r2) (s1 ++ s2) = true.
Proof.
  revert r1. induction s1 as [|c s1 IH]; intros r1 H1 H2; cbn in *.
  - apply MatchString_Cat_nullable; assumption.
  - destruct (nullable r1).
    + rewrite MatchString_Alt, (IH _ H1 H2). reflexivity.
    + apply IH; assumption.
Qed.

Lemma MatchString_Class_cons (p : ascii -> bool) (r : re) (c : ascii) (s : string) :
  MatchString (Cat (Class p) r) (String c s) = p c && MatchString r s.
Proof.
  cbn. destruct (p c); cbn.
  - apply MatchString_Cat_Eps.
  - apply MatchString_Cat_Void.
Qed.

(** [p{n}] matches the strings of [n] bytes in [p]. *)
Lemma MatchString_times_Class (n : nat) (p : ascii -> bool) (s : string) :
  MatchString (times n (Class p)) s
  = (String.length s =? n)%nat && allChars p s.
Proof.
  revert s. induction n as [|n IH]; intros [|c s].
  - reflexivity.
  - cbn. apply MatchString_Void.
  - reflexivity.
  - cbn [times]. rewrite MatchString_Class_cons, IH. cbn.
    rewrite !andb_assoc. f_equal. apply andb_comm.
Qed.

(** [p*] matches the strings of bytes in [p]. *)
Lemma MatchString_Star_Class (p : ascii -> bool) (s : string) :
  MatchString (Star (Class p)) s = allChars p s.
Proof.
  induction s as [|c s IH]; [reflexivity|].
  cbn [MatchString deriv allChars]. destruct (p c); cbn [andb].
  - rewrite MatchString_Cat_Eps. exact IH.
  - apply MatchString_Cat_Void.
Qed.

Lemma take_drop (n : nat) (s : string) : strings.take n s ++ strings.drop n s = s.
Proof.
  revert s. induction n as [|n IH]; intros [|c s]; cbn; try reflexivity.
  rewrite IH. reflexivity.
Qed.

Lemma take_length (n : nat) (s : string) :
  (n <= String.length s)%nat -> String.length (strings.take n s) = n.
Proof.
  revert s. induction n as [|n IH]; intros [|c s]; cbn; intros H;
    try reflexivity; try lia.
  rewrite IH; [reflexivity | lia].
Qed.

Lemma allChars_app (p : ascii -> bool) (a b : string) :
  allChars p (a ++ b) = allChars p a && allChars p b.
Proof.
  induction a as [|c a IH]; cbn; [reflexivity|].
  rewrite IH. apply andb_assoc.
Qed.

Lemma allChars_weaken (p q : ascii -> bool) (s : string) :
  (forall c, p c = true -> q c = true) ->
  allChars p s = true -> allChars q s = true.
Proof.
  intros Hpq. induction s as [|c s IH]; cbn; [reflexivity|].
  intros H. apply andb_prop in H. destruct H as [H1 H2].
  rewrite (Hpq _ H1), (IH H2). reflexivity.
Qed.

Lemma allChars_excludes (p : ascii -> bool) (s : string) (c : ascii) :
  allChars p s = true -> p c = false -> strings.ContainsRune s c = false.
Proof.
  intros H Hc. induction s as [|x s IH]; cbn in *; [reflexivity|].
  apply andb_prop in H. destruct H as [H1 H2].
  destruct (Ascii.eqb_spec x c) as [->|_]; [congruence|].
  cbn. auto.
Qed.

(** [p{n,}] matches the strings of at least [n] bytes in [p]. *)
Lemma MatchString_atLeast_Class (n : nat) (p : ascii -> bool) (s : string) :
  (n <= String.length s)%nat -> allChars p s = true ->
  MatchString (atLeast n (Class p)) s = true.
Proof.
  intros Hl Hp. rewrite <- (take_drop n s) in Hp |- *.
  rewrite allChars_app in Hp. apply andb_prop in Hp. destruct Hp as [H1 H2].
  unfold atLeast. apply MatchString_Cat.
  - rewrite MatchString_times_Class, H1, (take_length _ _ Hl), Nat.eqb_refl.
    reflexivity.
  - rewrite MatchString_Star_Class. exact H2.
Qed.

Lemma lowerhex_xdigit (c : ascii) : lowerhex c = true -> xdigit c = true.
Proof.
  unfold lowerhex, xdigit, orC, oneOf. cbn [strings.ContainsRune].
  destruct (digit c); [reflexivity|]. cbn [orb].
  repeat match goal with
         | |- context [Ascii.eqb ?a c] =>
             destruct (Ascii.eqb a c); cbn [orb]; try reflexivity
         end.
  intros H; exact H.
Qed.

End RegexpFacts.

(* ================================================================== *)
(** * Facts about digests *)
(* ================================================================== *)

Section DigestFacts.

Import regexp.

(** What [Validate] accepts: a registered algorithm, a colon, and as many
    lower-case hexadecimal digits as the algorithm's size asks for. *)
Lemma Validate_accepts (d : string) :
  digest.Validate d = None ->
  exists algorithm encoded,
    d = algorithm ++ ":" ++ encoded
    /\ (algorithm = "sha256" \/ algorithm = "sha384" \/ algorithm = "sha512")
    /\ allChars lowerhex encoded = true
    /\ (64 <= String.length encoded)%nat.
Proof.
  unfold digest.Validate. intros H.
  pose proof (IndexRune_Cut d ":") as HC.
  pose proof (Cut_spec d ":") as HS.
  destruct (strings.IndexRune d ":") as [i|]; [|discriminate].
  rewrite HC in HS. destruct HS as [Hd _].
  destruct (_ || _); [discriminate|].
  exists (strings.take i d), (strings.drop (i + 1) d).
  split; [exact Hd|].
  unfold digest.Size in H.
  assert (Hv : forall size,
             digest.Algorithm_Validate size (strings.drop (i + 1) d) = None ->
             allChars lowerhex (strings.drop (i + 1) d) = true
             /\ (size * 2 = String.length (strings.drop (i + 1) d))%nat).
  { intros size Hs. unfold digest.Algorithm_Validate in Hs.
    destruct (Nat.eqb_spec (size * 2) (String.length (strings.drop (i + 1) d)))
      as [He|]; [|discriminate]. cbn [negb] in Hs.
    rewrite MatchString_times_Class in Hs.
    destruct (allChars lowerhex _); [auto|].
    rewrite andb_false_r in Hs. discriminate. }
  destruct (String.eqb_spec (strings.take i d) "sha256") as [->|_];
    [destruct (Hv _ H) as [? ?]; repeat split; auto; lia|].
  destruct (String.eqb_spec (strings.take i d) "sha384") as [->|_];
    [destruct (Hv _ H) as [? ?]; repeat split; auto; lia|].
  destruct (String.eqb_spec (strings.take i d) "sha512") as [->|_];
    [destruct (Hv _ H) as [? ?]; repeat split; auto; lia|].
  destruct (negb _); discriminate.
Qed.

(** A digest that [Validate] accepts matches the digest of the reference
    grammar. *)
Lemma Validate_DigestRegexp (d : string) :
  digest.Validate d = None ->
  MatchString reference.DigestRegexp d = true.
Proof.
  intros H. destruct (Validate_accepts _ H) as (a & enc & -> & Ha & Hh & Hl).
  assert (Hx : MatchString (atLeast 32 (Class xdigit)) enc = true).
  { apply MatchString_atLeast_Class; [lia|].
    apply (allChars_weaken _ _ _ lowerhex_xdigit Hh). }
  assert (Hc : forall x y,
             MatchString (Class alpha) x = true ->
             MatchString (Star (Class alnum)) y = true ->
             MatchString reference.DigestRegexp (x ++ y ++ "" ++ ":" ++ enc) = true).
  { intros x y H1 H2. unfold reference.DigestRegexp.
    apply MatchString_Cat; [exact H1|].
    apply MatchString_Cat; [exact H2|].
    apply MatchString_Cat; [reflexivity|].
    apply (MatchString_Cat (Char ":") _ ":" enc); [reflexivity | exact Hx]. }
  destruct Ha as [-> | [-> | ->]].
  - apply (Hc "s" "ha256"); reflexivity.
  - apply (Hc "s" "ha384"); reflexivity.
  - apply (Hc "s" "ha512"); reflexivity.
Qed.

End DigestFacts.

(* ================================================================== *)
(** * Facts about the reference grammar *)
(* ================================================================== *)

Section SplitFacts.

Import strings.

Lemma Split_nonempty (s : string) (c : ascii) : Split s c <> [].
Proof.
  destruct s as [|a s]; cbn; [discriminate|].
  destruct (Ascii.eqb a c); [discriminate|].
  destruct (Split s c); discriminate.
Qed.

Lemma Join_cons (x : string) (l : list string) (sep : string) :
  l <> [] -> Join (x :: l) sep = x ++ sep ++ Join l sep.
Proof. destruct l; [congruence | reflexivity]. Qed.

Lemma Join_Split (s : string) (c : ascii) :
  Join (Split s c) (String c "") = s.
Proof.
  induction s as [|a s IH]; [reflexivity|].
  cbn [Split]. pose proof (Split_nonempty s c) as Hne.
  destruct (Ascii.eqb_spec a c) as [->|_].
  - rewrite Join_cons by assumption. rewrite IH. reflexivity.
  - destruct (Split s c) as [|x r]; [congruence|].
    destruct r as [|y r].
    + cbn in *. congruence.
    + rewrite Join_cons in * by discriminate.
      cbn [append] in *. congruence.
Qed.

Lemma colon_not_slash : Ascii.eqb "/" ":" = false.
Proof. reflexivity. Qed.

(** The text cut by [splitNameTag] is the name followed by the tag part,
    and a tag holds no ['/']. *)
Lemma splitNameTag_spec (s n : string) (t : option string) :
  reference.splitNameTag s = (n, t) ->
  s = n ++ tagPart t
  /\ (forall x, t = Some x -> ContainsRune x "/" = false).
Proof.
  revert n t. induction s as [|a s IH]; intros n t H; cbn in H.
  - injection H as <- <-. split; [reflexivity | discriminate].
  - destruct (Ascii.eqb_spec a ":") as [->|Hne]; cbn [andb] in H.
    + destruct (ContainsRune s "/") eqn:Hc; cbn [negb] in H.
      * destruct (reference.splitNameTag s) as [n' t'].
        injection H as <- <-. destruct (IH _ _ eq_refl) as [-> Ht].
        split; [reflexivity | exact Ht].
      * injection H as <- <-. split; [reflexivity|].
        intros x Hx. injection Hx as <-. exact Hc.
    + destruct (reference.splitNameTag s) as [n' t'].
      injection H as <- <-. destruct (IH _ _ eq_refl) as [-> Ht].
      split; [reflexivity | exact Ht].
Qed.

Lemma tagPart_no_slash (t : option string) :
  (forall x, t = Some x -> ContainsRune x "/" = false) ->
  ContainsRune (tagPart t) "/" = false.
Proof.
  destruct t as [x|]; intros H; [|reflexivity].
  cbn [tagPart append ContainsRune]. rewrite (H x eq_refl). reflexivity.
Qed.


(** The name found by [splitNameTag] has no tag left in it. *)
Lemma splitNameTag_name (s n : string) (t : option string) :
  reference.splitNameTag s = (n, t) ->
  reference.splitNameTag n = (n, None).
Proof.
  revert n t. induction s as [|a s IH]; intros n t H; cbn in H.
  - injection H as <- <-. reflexivity.
  - destruct (Ascii.eqb a ":" && negb (ContainsRune s "/")) eqn:Hc.
    + injection H as <- <-. reflexivity.
    + destruct (reference.splitNameTag s) as [n' t'] eqn:Hs.
      injection H as <- <-.
      destruct (splitNameTag_spec _ _ _ Hs) as [-> Ht].
      cbn [reference.splitNameTag]. rewrite (IH _ _ eq_refl).
      rewrite ContainsRune_app, (tagPart_no_slash _ Ht), orb_false_r in Hc.
      rewrite Hc. reflexivity.
Qed.

(** A tag appended to a name without tag is found again. *)
Lemma splitNameTag_tagPart (n : string) (t : option string) :
  reference.splitNameTag n = (n, None) ->
  (forall x, t = Some x -> ContainsRune x "/" = false) ->
  reference.splitNameTag (n ++ tagPart t) = (n, t).
Proof.
  intros Hn Ht. induction n as [|a n IH]; cbn [append].
  - destruct t as [x|]; [|reflexivity].
    cbn [tagPart append reference.splitNameTag].
    rewrite (Ht x eq_refl). reflexivity.
  - cbn [reference.splitNameTag] in Hn |- *.
    rewrite ContainsRune_app, (tagPart_no_slash _ Ht), orb_false_r.
    destruct (Ascii.eqb a ":" && negb (ContainsRune n "/")); [discriminate|].
    destruct (reference.splitNameTag n) as [n' t'].
    injection Hn as -> ->. rewrite (IH eq_refl). reflexivity.
Qed.

(** Text up to a ['/'] belongs to the name. *)
Lemma splitNameTag_slash (a b : string) :
  reference.splitNameTag (a ++ "/" ++ b)
  = (a ++ "/" ++ fst (reference.splitNameTag b), snd (reference.splitNameTag b)).
Proof.
  change ("/" ++ b) with (String "/" b) in *.
  induction a as [|x a IH]; cbn [append reference.splitNameTag].
  - rewrite colon_not_slash. cbn [andb].
    destruct (reference.splitNameTag b); reflexivity.
  - rewrite ContainsRune_app. cbn [ContainsRune].
    rewrite Ascii.eqb_refl, orb_true_r. cbn [negb]. rewrite andb_false_r.
    rewrite IH. reflexivity.
Qed.

Lemma splitNameTag_slash_clean (a b : string) :
  reference.splitNameTag b = (b, None) ->
  reference.splitNameTag (a ++ "/" ++ b) = (a ++ "/" ++ b, None).
Proof. intros H. rewrite splitNameTag_slash, H. reflexivity. Qed.

Lemma splitNameTag_slash_inv (a b : string) :
  reference.splitNameTag (a ++ "/" ++ b) = (a ++ "/" ++ b, None) ->
  reference.splitNameTag b = (b, None).
Proof.
  rewrite splitNameTag_slash. intros H.
  destruct (reference.splitNameTag b) as [n t]. cbn [fst snd] in H.
  injection H as H ->.
  apply append_inv_head in H. cbn [append] in H. injection H as ->.
  reflexivity.
Qed.

End SplitFacts.

Section SubmatchFacts.

Import strings regexp.

(** The captures of a name make up the name again, and a name that
    matches is not empty. *)
Lemma anchoredName_Name (name d p : string) :
  reference.anchoredNameRegexp_FindStringSubmatch name = Some (d, p) ->
  reference.repository_Name {| reference.domain := d; reference.path := p |} = name
  /\ name <> "".
Proof.
  unfold reference.anchoredNameRegexp_FindStringSubmatch, reference.repository_Name.
  cbn [reference.domain reference.path].
  pose proof (Join_Split name "/") as HJ.
  destruct (Split name "/") as [|x [|y r]].
  - discriminate.
  - cbn in HJ. subst x.
    destruct (MatchString reference.nameComponentRegexp name) eqn:Hm; [|discriminate].
    intros H. injection H as <- <-. split; [reflexivity|].
    intros ->. discriminate Hm.
  - rewrite Join_cons in HJ by discriminate.
    assert (Hne : name <> "").
    { intros ->. destruct x; cbn [append] in HJ; discriminate HJ. }
    destruct (MatchString reference.DomainRegexp x && _) eqn:Hm.
    + intros H. injection H as <- <-.
      apply andb_prop in Hm. destruct Hm as [Hm _].
      destruct (String.eqb_spec x "") as [->|_]; [discriminate Hm|].
      split; [exact HJ | exact Hne].
    + match goal with
      | |- (if ?c then _ else _) = _ -> _ => destruct c; [|discriminate]
      end.
      intros H. injection H as <- <-. split; [reflexivity | exact Hne].
Qed.

(** A string assembled from a clean name, a tag and a digest is taken
    apart into these. *)
Lemma FindStringSubmatch_parts (n : string) (t d : option string) :
  ContainsRune n "@" = false ->
  reference.splitNameTag n = (n, None) ->
  (forall x, t = Some x ->
             ContainsRune x "/" = false /\ ContainsRune x "@" = false) ->
  reference.ReferenceRegexp_FindStringSubmatch (n ++ tagPart t ++ digestPart d)
  = match reference.anchoredNameRegexp_FindStringSubmatch n with
    | None => None
    | Some _ =>
        if reference.matchOpt reference.TagRegexp t
           && reference.matchOpt reference.DigestRegexp d
        then Some (n, reference.capture t, reference.capture d)
        else None
    end.
Proof.
  intros Hn Hs Ht. unfold reference.ReferenceRegexp_FindStringSubmatch.
  assert (Hfront : ContainsRune (n ++ tagPart t) "@" = false).
  { rewrite ContainsRune_app, Hn. destruct t as [x|]; [|reflexivity].
    cbn [tagPart append ContainsRune orb].
    rewrite (proj2 (Ht x eq_refl)). reflexivity. }
  assert (Hcut : Cut (n ++ tagPart t ++ digestPart d) "@" = (n ++ tagPart t, d)).
  { rewrite <- append_assoc. destruct d as [x|]; cbn [digestPart append].
    - apply Cut_app. exact Hfront.
    - rewrite append_nil_r. apply Cut_none. exact Hfront. }
  rewrite Hcut.
  rewrite splitNameTag_tagPart;
    [reflexivity | exact Hs | intros x Hx; exact (proj1 (Ht x Hx))].
Qed.

(** Conversely, a string that matches is assembled in this way. *)
Lemma FindStringSubmatch_inv (s name tg dg : string) :
  reference.ReferenceRegexp_FindStringSubmatch s = Some (name, tg, dg) ->
  exists t d,
    s = name ++ tagPart t ++ digestPart d
    /\ tg = reference.capture t /\ dg = reference.capture d
    /\ ContainsRune name "@" = false
    /\ reference.splitNameTag name = (name, None)
    /\ (forall x, t = Some x ->
                  ContainsRune x "/" = false /\ ContainsRune x "@" = false)
    /\ reference.matchOpt reference.TagRegexp t = true
    /\ reference.matchOpt reference.DigestRegexp d = true
    /\ exists dm p,
        reference.anchoredNameRegexp_FindStringSubmatch name = Some (dm, p).
Proof.
  unfold reference.ReferenceRegexp_FindStringSubmatch. intros H.
  pose proof (Cut_spec s "@") as HC.
  destruct (Cut s "@") as [front d].
  destruct (reference.splitNameTag front) as [n t] eqn:Hs.
  destruct (reference.anchoredNameRegexp_FindStringSubmatch n) as [[dm p]|] eqn:Ha;
    [|discriminate].
  destruct (reference.matchOpt reference.TagRegexp t) eqn:Hmt; [|discriminate].
  destruct (reference.matchOpt reference.DigestRegexp d) eqn:Hmd; [|discriminate].
  cbn [andb] in H. injection H as <- <- <-.
  destruct (splitNameTag_spec _ _ _ Hs) as [Hfront Ht].
  assert (Hat : ContainsRune front "@" = false).
  { destruct d; destruct HC as [HC1 HC2]; [exact HC2 | subst; exact HC2]. }
  rewrite Hfront, ContainsRune_app in Hat.
  apply orb_false_elim in Hat. destruct Hat as [Hat1 Hat2].
  exists t, d. split; [|split; [reflexivity|split; [reflexivity|]]].
  - rewrite <- append_assoc, <- Hfront.
    destruct d as [x|]; destruct HC as [HC1 HC2]; cbn [digestPart].
    + exact HC1.
    + rewrite append_nil_r. symmetry. exact HC1.
  - split; [exact Hat1|]. split; [exact (splitNameTag_name _ _ _ Hs)|].
    split; [|split; [exact Hmt | split; [exact Hmd | exists dm, p; exact Ha]]].
    intros x ->. split; [exact (Ht x eq_refl)|].
    cbn [tagPart append ContainsRune] in Hat2.
    apply orb_false_elim in Hat2. exact (proj2 Hat2).
Qed.

End SubmatchFacts.

Section ParseFacts.

Import strings regexp.

Lemma getBestReferenceType_named (r : reference.repository) (tag dgst : string) :
  reference.repository_Name r <> "" ->
  reference.getBestReferenceType
    {| reference.namedRepository := r;
       reference.tag := tag;
       reference.digest := dgst |}
  = Some (reference.named (bestNamed r tag dgst)).
Proof.
  intros Hn. unfold reference.getBestReferenceType, bestNamed.
  cbn [reference.namedRepository reference.tag reference.digest].
  destruct (String.eqb_spec (reference.repository_Name r) ""); [contradiction|].
  destruct (String.eqb tag ""); destruct (String.eqb dgst ""); reflexivity.
Qed.

Lemma bestNamed_repo (r : reference.repository) (tag dgst : string) :
  reference.repo (bestNamed r tag dgst) = r.
Proof.
  unfold bestNamed.
  destruct (String.eqb tag ""); destruct (String.eqb dgst ""); reflexivity.
Qed.

Lemma matchOpt_Digest_capture (d : option string) :
  reference.matchOpt reference.DigestRegexp d = true ->
  String.eqb (reference.capture d) "" = true -> d = None.
Proof.
  destruct d as [x|]; [|reflexivity]. cbn [reference.matchOpt reference.capture].
  intros Hm He. apply String.eqb_eq in He. subst x. discriminate Hm.
Qed.

(** [Parse] on a string assembled from a clean name, a tag and a
    digest. *)
Lemma Parse_parts (n : string) (t d : option string) (dm p : string) :
  ContainsRune n "@" = false ->
  reference.splitNameTag n = (n, None) ->
  (forall x, t = Some x ->
             ContainsRune x "/" = false /\ ContainsRune x "@" = false) ->
  reference.anchoredNameRegexp_FindStringSubmatch n = Some (dm, p) ->
  reference.matchOpt reference.TagRegexp t = true ->
  reference.matchOpt reference.DigestRegexp d = true ->
  (String.length n <= reference.NameTotalLengthMax)%nat ->
  (forall x, d = Some x -> digest.Validate x = None) ->
  reference.Parse (n ++ tagPart t ++ digestPart d)
  = Ok (reference.named
          (bestNamed {| reference.domain := dm; reference.path := p |}
                     (reference.capture t) (reference.capture d))).
Proof.
  intros Hn Hs Ht Ha Hmt Hmd Hl Hv. unfold reference.Parse.
  rewrite (FindStringSubmatch_parts _ _ _ Hn Hs Ht), Ha, Hmt, Hmd.
  cbn [andb]. rewrite Ha.
  destruct (Nat.ltb_spec reference.NameTotalLengthMax (String.length n)); [lia|].
  destruct (anchoredName_Name _ _ _ Ha) as [HN Hne].
  assert (HN' : reference.repository_Name
                  {| reference.domain := dm; reference.path := p |} <> "")
    by (rewrite HN; exact Hne).
  destruct d as [x|]; cbn [reference.capture].
  - destruct (String.eqb_spec x "") as [->|_]; [discriminate Hmd|].
    cbn [negb]. unfold digest.Parse. rewrite (Hv x eq_refl). cbv beta iota.
    rewrite (getBestReferenceType_named _ _ _ HN'). reflexivity.
  - cbn [String.eqb negb]. cbv beta iota.
    rewrite (getBestReferenceType_named _ _ _ HN'). reflexivity.
Qed.

(** What a successful [Parse] tells about its argument. *)
Lemma Parse_inv (s : string) (ref : reference.Reference) :
  reference.Parse s = Ok ref ->
  exists n t d dm p,
    s = n ++ tagPart t ++ digestPart d
    /\ ContainsRune n "@" = false
    /\ reference.splitNameTag n = (n, None)
    /\ (forall x, t = Some x ->
                  ContainsRune x "/" = false /\ ContainsRune x "@" = false)
    /\ reference.anchoredNameRegexp_FindStringSubmatch n = Some (dm, p)
    /\ reference.matchOpt reference.TagRegexp t = true
    /\ reference.matchOpt reference.DigestRegexp d = true
    /\ (String.length n <= reference.NameTotalLengthMax)%nat
    /\ (forall x, d = Some x -> digest.Validate x = None)
    /\ ref = reference.named
               (bestNamed {| reference.domain := dm; reference.path := p |}
                          (reference.capture t) (reference.capture d)).
Proof.
  unfold reference.Parse. intros H.
  destruct (reference.ReferenceRegexp_FindStringSubmatch s)
    as [[[name tg] dg]|] eqn:Hsub.
  2:{ destruct (String.eqb s ""); [discriminate H|].
      destruct (reference.ReferenceRegexp_FindStringSubmatch (ToLower s));
        discriminate H. }
  destruct (FindStringSubmatch_inv _ _ _ _ Hsub)
    as (t & d & Hs & -> & -> & Hat & Hsplit & Ht & Hmt & Hmd & dm & p & Ha).
  rewrite ?Ha in H.
  destruct (Nat.ltb_spec reference.NameTotalLengthMax (String.length name));
    [discriminate H|].
  destruct (anchoredName_Name _ _ _ Ha) as [HN Hne].
  assert (HN' : reference.repository_Name
                  {| reference.domain := dm; reference.path := p |} <> "")
    by (rewrite HN; exact Hne).
  exists name, t, d, dm, p.
  repeat match goal with |- _ /\ _ => split; [assumption || lia|] end.
  destruct d as [x|]; cbn [reference.capture] in *.
  - destruct (String.eqb_spec x "") as [->|_]; [discriminate Hmd|].
    cbn [negb] in H. unfold digest.Parse in H.
    destruct (digest.Validate x) eqn:Hv; [discriminate H|]. cbv beta iota in H.
    rewrite (getBestReferenceType_named _ _ _ HN') in H.
    injection H as <-. split; [|reflexivity].
    intros y Hy. injection Hy as <-. exact Hv.
  - cbn [String.eqb negb] in H. cbv beta iota in H.
    rewrite (getBestReferenceType_named _ _ _ HN') in H.
    injection H as <-. split; [discriminate | reflexivity].
Qed.

End ParseFacts.

Section NormalizeFacts.

Import strings regexp.

Lemma IndexRune_none (s : string) (c : ascii) :
  IndexRune s c = None <-> ContainsRune s c = false.
Proof.
  induction s as [|a s IH]; cbn; [tauto|].
  destruct (Ascii.eqb a c); cbn.
  - split; discriminate.
  - destruct (IndexRune s c); [|tauto].
    split; [discriminate|]. intros H. apply IH in H. discriminate H.
Qed.

Lemma IndexRune_app_some (a b : string) (c : ascii) (i : nat) :
  IndexRune a c = Some i ->
  IndexRune (a ++ b) c = Some i
  /\ take i (a ++ b) = take i a
  /\ drop (i + 1) (a ++ b) = drop (i + 1) a ++ b.
Proof.
  revert i. induction a as [|x a IH]; intros i H; cbn in H; [discriminate|].
  cbn [append IndexRune].
  destruct (Ascii.eqb x c).
  - injection H as <-. cbn. repeat split; reflexivity.
  - destruct (IndexRune a c) as [j|]; [|discriminate].
    injection H as <-. destruct (IH j eq_refl) as (-> & H2 & H3).
    cbn [take drop Nat.add]. rewrite H2. rewrite <- H3.
    repeat split; reflexivity.
Qed.

Lemma IndexRune_app_none (a b : string) (c : ascii) :
  IndexRune a c = None -> ContainsRune b c = false ->
  IndexRune (a ++ b) c = None.
Proof.
  intros Ha Hb. apply IndexRune_none. rewrite ContainsRune_app, Hb.
  apply IndexRune_none in Ha. rewrite Ha. reflexivity.
Qed.

(** Text without ['/'] after a name does not change how the domain is
    split off. *)
Lemma splitDockerDomain_app (name rest : string) :
  ContainsRune rest "/" = false ->
  reference.splitDockerDomain (name ++ rest)
  = (fst (reference.splitDockerDomain name),
     snd (reference.splitDockerDomain name) ++ rest).
Proof.
  intros Hr. unfold reference.splitDockerDomain.
  assert (Hc : forall r, Contains (r ++ rest) "/" = Contains r "/").
  { intros r. rewrite !Contains_slash, ContainsRune_app, Hr. apply orb_false_r. }
  destruct (IndexRune name "/") as [i|] eqn:Hi.
  - destruct (IndexRune_app_some _ rest _ _ Hi) as (-> & -> & ->).
    destruct (negb _ && negb _).
    + cbv beta iota zeta. rewrite Hc.
      replace (String.eqb reference.defaultDomain reference.legacyDefaultDomain)
        with false by reflexivity.
      destruct (_ && _); cbn [fst snd]; rewrite ?append_assoc; reflexivity.
    + cbv beta iota zeta. rewrite Hc.
      destruct (String.eqb (take i name) reference.legacyDefaultDomain);
        destruct (_ && _); cbn [fst snd]; rewrite ?append_assoc; reflexivity.
  - rewrite (IndexRune_app_none _ _ _ Hi Hr).
    cbv beta iota zeta. rewrite Hc.
    replace (String.eqb reference.defaultDomain reference.legacyDefaultDomain)
      with false by reflexivity.
    destruct (_ && _); cbn [fst snd]; rewrite ?append_assoc; reflexivity.
Qed.


(** Normalization keeps a name clean: no ['@'], and no tag after the last
    ['/']. *)
Lemma normalizedName_clean (name : string) :
  ContainsRune name "@" = false ->
  reference.splitNameTag name = (name, None) ->
  ContainsRune (normalizedName name) "@" = false
  /\ reference.splitNameTag (normalizedName name) = (normalizedName name, None).
Proof.
  intros Hat Hs. unfold normalizedName, reference.splitDockerDomain.
  pose proof (IndexRune_Cut name "/") as HC.
  pose proof (Cut_spec name "/") as HS.
  assert (Hlib : ContainsRune reference.officialRepoName "@" = false) by reflexivity.
  assert (Hdef : ContainsRune reference.defaultDomain "@" = false) by reflexivity.
  assert (Hsl : ContainsRune "/" "@" = false) by reflexivity.
  destruct (IndexRune name "/") as [i|].
  - rewrite HC in HS. destruct HS as [Hname _].
    set (t := take i name) in *. set (d := drop (i + 1) name) in *.
    change (String "/" d) with ("/" ++ d) in Hname.
    assert (Hat' : ContainsRune t "@" = false /\ ContainsRune d "@" = false).
    { rewrite Hname, !ContainsRune_app in Hat.
      apply orb_false_elim in Hat. destruct Hat as [H1 H2].
      apply orb_false_elim in H2. tauto. }
    destruct Hat' as [Hatt Hatd].
    assert (Hsd : reference.splitNameTag d = (d, None)).
    { apply (splitNameTag_slash_inv t). rewrite <- Hname. exact Hs. }
    destruct (negb _ && negb _); cbv beta iota zeta.
    all: repeat match goal with
           | |- context [if ?c then _ else _] => destruct c
           end.
    all: split;
      [ rewrite ?ContainsRune_app, ?Hlib, ?Hdef, ?Hsl, ?Hatt, ?Hatd, ?Hat;
        reflexivity
      | repeat apply splitNameTag_slash_clean; assumption ].
  - cbv beta iota zeta.
    repeat match goal with
           | |- context [if ?c then _ else _] => destruct c
           end.
    all: split;
      [ rewrite ?ContainsRune_app, ?Hlib, ?Hdef, ?Hsl, ?Hat; reflexivity
      | repeat apply splitNameTag_slash_clean; assumption ].
Qed.

(** [ParseNormalizedNamed] on a name followed by text without ['/']. *)
Lemma ParseNormalizedNamed_app (name rest : string) :
  ContainsRune rest "/" = false ->
  reference.ParseNormalizedNamed (name ++ rest)
  = if MatchString reference.IdentifierRegexp (name ++ rest) then
      Err (New ("invalid repository name (" ++ (name ++ rest)
                ++ "), cannot specify 64-byte hexadecimal strings"))
    else
      let remoteName :=
        fst (Cut (snd (reference.splitDockerDomain name) ++ rest) ":") in
      if negb (String.eqb (ToLower remoteName) remoteName) then
        Err (New "invalid reference format: repository name must be lowercase")
      else
        match reference.Parse (normalizedName name ++ rest) with
        | Err e => Err e
        | Ok ref =>
            match reference.asNamed ref with
            | None => Err (New ("reference " ++ reference.Reference_String ref
                                ++ " has no name"))
            | Some n => Ok n
            end
        end.
Proof.
  intros Hr. unfold reference.ParseNormalizedNamed, normalizedName.
  rewrite (splitDockerDomain_app _ _ Hr).
  destruct (reference.splitDockerDomain name) as [dom r0]. cbn [fst snd].
  pose proof (IndexRune_Cut (r0 ++ rest) ":") as HC.
  destruct (IndexRune (r0 ++ rest) ":") as [i|]; rewrite HC; cbn [fst].
  all: rewrite !append_assoc; reflexivity.
Qed.

End NormalizeFacts.

Section PinFacts.

Import strings regexp.

Lemma Parse_parts_inv (n : string) (t d : option string) (ref : reference.Reference) :
  ContainsRune n "@" = false ->
  reference.splitNameTag n = (n, None) ->
  (forall x, t = Some x ->
             ContainsRune x "/" = false /\ ContainsRune x "@" = false) ->
  reference.Parse (n ++ tagPart t ++ digestPart d) = Ok ref ->
  exists dm p,
    reference.anchoredNameRegexp_FindStringSubmatch n = Some (dm, p)
    /\ (String.length n <= reference.NameTotalLengthMax)%nat
    /\ ref = reference.named
               (bestNamed {| reference.domain := dm; reference.path := p |}
                          (reference.capture t) (reference.capture d)).
Proof.
  intros Hn Hs Ht H. unfold reference.Parse in H.
  rewrite (FindStringSubmatch_parts _ _ _ Hn Hs Ht) in H.
  destruct (reference.anchoredNameRegexp_FindStringSubmatch n) as [[dm0 p0]|] eqn:Ha.
  2:{ destruct (String.eqb _ ""); [discriminate H|].
      destruct (reference.ReferenceRegexp_FindStringSubmatch _); discriminate H. }
  destruct (_ && _).
  2:{ destruct (String.eqb _ ""); [discriminate H|].
      destruct (reference.ReferenceRegexp_FindStringSubmatch _); discriminate H. }
  cbv beta iota in H. rewrite Ha in H.
  destruct (Nat.ltb_spec reference.NameTotalLengthMax (String.length n));
    [discriminate H|].
  destruct (anchoredName_Name _ _ _ Ha) as [HN Hne].
  assert (HN' : reference.repository_Name
                  {| reference.domain := dm0; reference.path := p0 |} <> "")
    by (rewrite HN; exact Hne).
  exists dm0, p0. split; [reflexivity|]. split; [lia|].
  destruct (String.eqb_spec (reference.capture d) "") as [He|_]; cbn [negb] in H.
  - rewrite (getBestReferenceType_named _ _ _ HN') in H.
    injection H as <-. rewrite He. reflexivity.
  - unfold digest.Parse in H.
    destruct (digest.Validate (reference.capture d)); [discriminate H|].
    rewrite (getBestReferenceType_named _ _ _ HN') in H.
    injection H as <-. reflexivity.
Qed.

Lemma Identifier_no_at (s : string) :
  ContainsRune s "@" = true ->
  MatchString reference.IdentifierRegexp s = false.
Proof.
  intros H. unfold reference.IdentifierRegexp.
  rewrite MatchString_times_Class.
  destruct (allChars lowerhex s) eqn:Ha; [|apply andb_false_r].
  rewrite (allChars_excludes _ _ "@" Ha eq_refl) in H. discriminate H.
Qed.

Lemma Validate_no_slash (d : string) :
  digest.Validate d = None -> ContainsRune d "/" = false.
Proof.
  intros H. destruct (Validate_accepts _ H) as (a & enc & -> & Ha & Hh & _).
  rewrite !ContainsRune_app, (allChars_excludes _ _ "/" Hh eq_refl).
  destruct Ha as [-> | [-> | ->]]; reflexivity.
Qed.

Lemma Validate_nonempty (d : string) : digest.Validate d = None -> d <> "".
Proof. intros H ->. discriminate H. Qed.

(** The text of a valid digest up to its colon is in lower case. *)
Lemma Validate_lowercase (d : string) :
  digest.Validate d = None ->
  ToLower (fst (Cut ("@" ++ d) ":")) = fst (Cut ("@" ++ d) ":").
Proof.
  intros H. destruct (Validate_accepts _ H) as (a & enc & -> & Ha & _ & _).
  destruct Ha as [-> | [-> | ->]]; reflexivity.
Qed.

End PinFacts.

(* ================================================================== *)
(** * The submatch functions agree with the regular expressions *)
(* ================================================================== *)

Section MatcherInversion.

Import strings regexp.

Lemma MatchString_Eps (s : string) : MatchString Eps s = true -> s = "".
Proof.
  destruct s as [|c s]; [reflexivity|]. cbn. rewrite MatchString_Void. discriminate.
Qed.

Lemma MatchString_Class (p : ascii -> bool) (s : string) :
  MatchString (Class p) s = true -> exists c, s = String c "" /\ p c = true.
Proof.
  destruct s as [|c s]; [discriminate|]. cbn.
  destruct (p c) eqn:Hp; [|rewrite MatchString_Void; discriminate].
  intros H. apply MatchString_Eps in H. subst s. exists c. auto.
Qed.

Lemma MatchString_Char (c : ascii) (s : string) :
  MatchString (Char c) s = true -> s = String c "".
Proof.
  intros H. destruct (MatchString_Class _ _ H) as (x & -> & Hx).
  apply Ascii.eqb_eq in Hx. subst x. reflexivity.
Qed.

(** A match of a concatenation splits into matches of the parts. *)
Lemma MatchString_Cat_inv (r1 r2 : re) (s : string) :
  MatchString (Cat r1 r2) s = true ->
  exists s1 s2,
    s = s1 ++ s2 /\ MatchString r1 s1 = true /\ MatchString r2 s2 = true.
Proof.
  revert r1. induction s as [|c s IH]; intros r1 H.
  - cbn in H. apply andb_prop in H. destruct H as [H1 H2].
    exists "", "". auto.
  - cbn [MatchString deriv] in H.
    destruct (nullable r1) eqn:Hn.
    + rewrite MatchString_Alt in H. apply orb_prop in H. destruct H as [H|H].
      * destruct (IH _ H) as (s1 & s2 & -> & H1 & H2).
        exists (String c s1), s2. auto.
      * exists "", (String c s). auto.
    + destruct (IH _ H) as (s1 & s2 & -> & H1 & H2).
      exists (String c s1), s2. auto.
Qed.

Lemma MatchString_Star_app (r : re) (s1 s2 : string) :
  MatchString r s1 = true -> MatchString (Star r) s2 = true ->
  MatchString (Star r) (s1 ++ s2) = true.
Proof.
  intros H1 H2. destruct s1 as [|c s1]; [exact H2|].
  cbn [append MatchString deriv]. apply MatchString_Cat; assumption.
Qed.

Lemma MatchString_Star_inv (r : re) (s : string) :
  MatchString (Star r) s = true ->
  s = "" \/
  exists s1 s2,
    s = s1 ++ s2 /\ s1 <> "" /\ MatchString r s1 = true
    /\ MatchString (Star r) s2 = true.
Proof.
  destruct s as [|c s]; [auto|]. intros H. right.
  cbn [MatchString deriv] in H.
  destruct (MatchString_Cat_inv _ _ _ H) as (a & b & -> & Ha & Hb).
  exists (String c a), b. repeat split; [discriminate | exact Ha | exact Hb].
Qed.

(** Induction over the iterations of a star. *)
Lemma MatchString_Star_ind (r : re) (P : string -> Prop) :
  P "" ->
  (forall s1 s2,
      s1 <> "" -> MatchString r s1 = true -> MatchString (Star r) s2 = true ->
      P s2 -> P (s1 ++ s2)) ->
  forall s, MatchString (Star r) s = true -> P s.
Proof.
  intros H0 Hstep s.
  remember (String.length s) as n eqn:Hn. revert s Hn.
  induction n as [n IH] using lt_wf_ind. intros s Hn H.
  destruct (MatchString_Star_inv _ _ H) as [->|(s1 & s2 & -> & Hne & H1 & H2)];
    [exact H0|].
  apply Hstep; try assumption.
  apply (IH (String.length s2)); [|reflexivity | exact H2].
  subst n. rewrite length_append. destruct s1; [congruence | cbn; lia].
Qed.

(** A string is made of bytes its regular expression admits. *)
Lemma deriv_rejects (r : re) (c : ascii) :
  accepts r c = false -> forall s, MatchString (deriv c r) s = false.
Proof.
  assert (Hcat : forall x y,
             (forall s, MatchString x s = false) ->
             forall s, MatchString (Cat x y) s = false).
  { intros x y Hx s. revert x Hx. induction s as [|a s IH]; intros x Hx.
    - cbn. specialize (Hx ""). cbn in Hx. rewrite Hx. reflexivity.
    - cbn [MatchString deriv].
      replace (nullable x) with false by (symmetry; exact (Hx "")).
      apply IH. intros s'. exact (Hx (String a s')). }
  induction r as [| |p|r1 IH1 r2 IH2|r1 IH1 r2 IH2|r1 IH1]; cbn [accepts deriv];
    intros H s.
  - apply MatchString_Void.
  - apply MatchString_Void.
  - rewrite H. apply MatchString_Void.
  - apply orb_false_elim in H. destruct H as [H1 H2].
    destruct (nullable r1).
    + rewrite MatchString_Alt, (Hcat _ _ (IH1 H1)), (IH2 H2). reflexivity.
    + apply Hcat. exact (IH1 H1).
  - apply orb_false_elim in H. destruct H as [H1 H2].
    rewrite MatchString_Alt, (IH1 H1), (IH2 H2). reflexivity.
  - apply Hcat. exact (IH1 H).
Qed.

Lemma accepts_deriv (r : re) (c x : ascii) :
  accepts (deriv c r) x = true -> accepts r x = true.
Proof.
  induction r as [| |p|r1 IH1 r2 IH2|r1 IH1 r2 IH2|r1 IH1]; cbn [accepts deriv].
  - discriminate.
  - discriminate.
  - destruct (p c); discriminate.
  - destruct (nullable r1); cbn [accepts]; intros H.
    + apply orb_prop in H. destruct H as [H|H].
      * apply orb_prop in H. destruct H as [H|H].
        -- rewrite (IH1 H). reflexivity.
        -- rewrite H. apply orb_true_r.
      * rewrite (IH2 H). apply orb_true_r.
    + apply orb_prop in H. destruct H as [H|H].
      * rewrite (IH1 H). reflexivity.
      * rewrite H. apply orb_true_r.
  - intros H. apply orb_prop in H. destruct H as [H|H].
    + rewrite (IH1 H). reflexivity.
    + rewrite (IH2 H). apply orb_true_r.
  - intros H. apply orb_prop in H. destruct H as [H|H].
    + exact (IH1 H).
    + exact H.
Qed.

Lemma MatchString_accepts (r : re) (s : string) :
  MatchString r s = true -> allChars (accepts r) s = true.
Proof.
  revert r. induction s as [|c s IH]; intros r H; [reflexivity|].
  cbn [allChars]. cbn [MatchString] in H.
  destruct (accepts r c) eqn:Hc.
  - cbn [andb]. apply (allChars_weaken (accepts (deriv c r))).
    + intros x. apply accepts_deriv.
    + apply IH. exact H.
  - rewrite (deriv_rejects _ _ Hc) in H. discriminate H.
Qed.

(** A string matched by [r] holds no byte that [r] does not admit. *)
Lemma MatchString_excludes (r : re) (s : string) (c : ascii) :
  MatchString r s = true -> accepts r c = false -> ContainsRune s c = false.
Proof.
  intros H Hc. apply (allChars_excludes (accepts r)); [|exact Hc].
  apply MatchString_accepts. exact H.
Qed.

End MatcherInversion.

Section NameFacts.

Import strings regexp.

Lemma Join_prefixed (x : string) (xs : list string) :
  Join (x :: xs) "/" = x ++ prefixed xs.
Proof.
  revert x. induction xs as [|y ys IH]; intros x.
  - cbn. symmetry. apply append_nil_r.
  - rewrite Join_cons by discriminate. rewrite IH. reflexivity.
Qed.

Lemma Split_single (x : string) (c : ascii) :
  ContainsRune x c = false -> Split x c = [x].
Proof.
  induction x as [|a x IH]; cbn [ContainsRune Split]; [reflexivity|].
  destruct (Ascii.eqb a c); cbn [orb]; [discriminate|].
  intros H. rewrite (IH H). reflexivity.
Qed.

Lemma Split_app (x rest : string) (c : ascii) :
  ContainsRune x c = false ->
  Split (x ++ String c rest) c = x :: Split rest c.
Proof.
  induction x as [|a x IH]; cbn [ContainsRune Split append].
  - rewrite Ascii.eqb_refl. reflexivity.
  - destruct (Ascii.eqb a c); cbn [orb]; [discriminate|].
    intros H. rewrite (IH H). reflexivity.
Qed.

Lemma component_no_slash (x : string) :
  (MatchString reference.nameComponentRegexp) x = true -> ContainsRune x "/" = false.
Proof. intros H. apply (MatchString_excludes _ _ _ H). reflexivity. Qed.

Lemma Split_prefixed (x : string) (xs : list string) :
  forallb (MatchString reference.nameComponentRegexp) (x :: xs) = true ->
  Split (x ++ prefixed xs) "/" = x :: xs.
Proof.
  revert x. induction xs as [|y ys IH]; intros x H; cbn [forallb] in H;
    apply andb_prop in H; destruct H as [Hx Hr].
  - cbn [prefixed]. rewrite append_nil_r.
    apply Split_single, component_no_slash, Hx.
  - cbn [prefixed]. change ("/" ++ y ++ prefixed ys) with (String "/" (y ++ prefixed ys)).
    rewrite Split_app by (apply component_no_slash, Hx).
    rewrite (IH y Hr). reflexivity.
Qed.

(** The iterations of ["/" (MatchString reference.nameComponentRegexp)]. *)
Lemma tail_fields (s : string) :
  MatchString (Star (Cat (Char "/") reference.nameComponentRegexp)) s = true ->
  exists xs, s = prefixed xs /\ forallb (MatchString reference.nameComponentRegexp) xs = true.
Proof.
  revert s.
  apply (MatchString_Star_ind _
           (fun s => exists xs,
                 s = prefixed xs
                 /\ forallb (MatchString reference.nameComponentRegexp) xs = true)).
  - exists []. auto.
  - intros s1 s2 _ H1 _ (xs & -> & Hxs).
    destruct (MatchString_Cat_inv _ _ _ H1) as (a & x & -> & Ha & Hx).
    apply MatchString_Char in Ha. subst a.
    exists (x :: xs). cbn [prefixed forallb]. rewrite Hx, Hxs.
    split; reflexivity.
Qed.

Lemma fields_tail (xs : list string) :
  forallb (MatchString reference.nameComponentRegexp) xs = true ->
  MatchString (Star (Cat (Char "/") reference.nameComponentRegexp)) (prefixed xs) = true.
Proof.
  induction xs as [|x xs IH]; cbn [forallb prefixed]; intros H; [reflexivity|].
  apply andb_prop in H. destruct H as [Hx Hr].
  rewrite <- append_assoc. apply MatchString_Star_app; [|exact (IH Hr)].
  apply (MatchString_Cat (Char "/") _ "/" x); [reflexivity | exact Hx].
Qed.

(** A path is a non-empty list of components joined by ['/']. *)
Lemma path_fields (path : string) :
  MatchString pathRegexp path = true ->
  exists x xs, path = x ++ prefixed xs /\ forallb (MatchString reference.nameComponentRegexp) (x :: xs) = true.
Proof.
  unfold pathRegexp. intros H.
  destruct (MatchString_Cat_inv _ _ _ H) as (x & tl & -> & Hx & Htl).
  assert (Hs : MatchString (Star (Cat (Char "/") reference.nameComponentRegexp)) tl
               = true).
  { unfold optional in Htl. rewrite MatchString_Alt in Htl.
    apply orb_prop in Htl. destruct Htl as [Htl|Htl].
    - unfold repeated in Htl.
      destruct (MatchString_Cat_inv _ _ _ Htl) as (u & v & -> & Hu & Hv).
      apply MatchString_Star_app; assumption.
    - apply MatchString_Eps in Htl. subst tl. reflexivity. }
  destruct (tail_fields _ Hs) as (xs & -> & Hxs).
  exists x, xs. cbn [forallb]. rewrite Hx, Hxs. auto.
Qed.

Lemma fields_path (x : string) (xs : list string) :
  forallb (MatchString reference.nameComponentRegexp) (x :: xs) = true ->
  MatchString pathRegexp (x ++ prefixed xs) = true.
Proof.
  cbn [forallb]. intros H. apply andb_prop in H. destruct H as [Hx Hr].
  unfold pathRegexp. apply MatchString_Cat; [exact Hx|].
  unfold optional. rewrite MatchString_Alt.
  destruct xs as [|y ys]; [apply orb_true_r|].
  cbn [forallb prefixed] in *. apply andb_prop in Hr. destruct Hr as [Hy Hr].
  rewrite <- append_assoc. unfold repeated.
  rewrite MatchString_Cat; [reflexivity | | exact (fields_tail _ Hr)].
  apply (MatchString_Cat (Char "/") _ "/" y); [reflexivity | exact Hy].
Qed.

(** The name capture of [anchoredNameRegexp] on a name with a domain. *)
Lemma anchoredName_domain (dom path : string) :
  MatchString reference.DomainRegexp dom = true ->
  MatchString pathRegexp path = true ->
  reference.anchoredNameRegexp_FindStringSubmatch (dom ++ "/" ++ path)
  = Some (dom, path).
Proof.
  intros Hd Hp. destruct (path_fields _ Hp) as (x & xs & -> & Hf).
  unfold reference.anchoredNameRegexp_FindStringSubmatch.
  change ("/" ++ x ++ prefixed xs) with (String "/" (x ++ prefixed xs)).
  rewrite Split_app by (apply (MatchString_excludes _ _ _ Hd); reflexivity).
  rewrite (Split_prefixed _ _ Hf), Hd, Hf. cbn [andb].
  rewrite Join_prefixed. reflexivity.
Qed.

(** On a name that is a path, the first (MatchString reference.nameComponentRegexp) is captured as the domain
    when it can be one and other components follow. *)
Lemma anchoredName_path (path : string) :
  MatchString pathRegexp path = true ->
  exists x xs,
    path = x ++ prefixed xs
    /\ reference.anchoredNameRegexp_FindStringSubmatch path
       = match xs with
         | [] => Some ("", path)
         | _ :: _ =>
             if MatchString reference.DomainRegexp x
             then Some (x, Join xs "/")
             else Some ("", path)
         end.
Proof.
  intros Hp. destruct (path_fields _ Hp) as (x & xs & -> & Hf).
  exists x, xs. split; [reflexivity|].
  unfold reference.anchoredNameRegexp_FindStringSubmatch.
  rewrite (Split_prefixed _ _ Hf).
  destruct xs as [|y ys].
  - cbn [forallb] in Hf. apply andb_prop in Hf. destruct Hf as [Hx _].
    cbn [prefixed]. rewrite append_nil_r, Hx. reflexivity.
  - rewrite Hf. pose proof Hf as Hf'. cbn [forallb] in Hf'.
    apply andb_prop in Hf'. destruct Hf' as [_ Hr]. cbn [forallb]. 
    cbn [forallb] in Hr. rewrite Hr, andb_true_r.
    destruct (MatchString reference.DomainRegexp x); reflexivity.
Qed.

(** What the name regular expression matches. *)
Lemma NameRegexp_inv (name : string) :
  MatchString reference.NameRegexp name = true ->
  (exists dom path,
      name = dom ++ "/" ++ path
      /\ MatchString reference.DomainRegexp dom = true
      /\ MatchString pathRegexp path = true)
  \/ MatchString pathRegexp name = true.
Proof.
  intros H. change reference.NameRegexp
    with (Cat (optional (Cat reference.DomainRegexp (Char "/"))) pathRegexp) in H.
  destruct (MatchString_Cat_inv _ _ _ H) as (dp & path & -> & Hdp & Hp).
  unfold optional in Hdp. rewrite MatchString_Alt in Hdp.
  apply orb_prop in Hdp. destruct Hdp as [Hdp|Hdp].
  - destruct (MatchString_Cat_inv _ _ _ Hdp) as (dom & sl & -> & Hd & Hsl).
    apply MatchString_Char in Hsl. subst sl. left. exists dom, path.
    rewrite append_assoc. auto.
  - apply MatchString_Eps in Hdp. subst dp. right. exact Hp.
Qed.

Lemma NameRegexp_domain (dom path : string) :
  MatchString reference.DomainRegexp dom = true ->
  MatchString pathRegexp path = true ->
  MatchString reference.NameRegexp (dom ++ "/" ++ path) = true.
Proof.
  intros Hd Hp. change reference.NameRegexp
    with (Cat (optional (Cat reference.DomainRegexp (Char "/"))) pathRegexp).
  rewrite <- append_assoc. apply MatchString_Cat; [|exact Hp].
  unfold optional. rewrite MatchString_Alt.
  rewrite (MatchString_Cat _ (Char "/") dom "/" Hd eq_refl). reflexivity.
Qed.

Lemma NameRegexp_path (path : string) :
  MatchString pathRegexp path = true ->
  MatchString reference.NameRegexp path = true.
Proof.
  intros Hp. change reference.NameRegexp
    with (Cat (optional (Cat reference.DomainRegexp (Char "/"))) pathRegexp).
  apply (MatchString_Cat _ _ "" path); [reflexivity | exact Hp].
Qed.

(** The name capture succeeds exactly on the names the regular expression
    matches. *)
Lemma anchoredName_complete (name : string) :
  MatchString reference.NameRegexp name = true ->
  exists dm p, reference.anchoredNameRegexp_FindStringSubmatch name = Some (dm, p).
Proof.
  intros H. destruct (NameRegexp_inv _ H) as [(dom & path & -> & Hd & Hp)|Hp].
  - exists dom, path. apply anchoredName_domain; assumption.
  - destruct (anchoredName_path _ Hp) as (x & xs & _ & ->).
    destruct xs; [eauto|]. destruct (MatchString _ x); eauto.
Qed.

Lemma anchoredName_sound (name dm p : string) :
  reference.anchoredNameRegexp_FindStringSubmatch name = Some (dm, p) ->
  MatchString reference.NameRegexp name = true.
Proof.
  unfold reference.anchoredNameRegexp_FindStringSubmatch.
  pose proof (Join_Split name "/") as HJ.
  destruct (Split name "/") as [|x xs]; [discriminate|].
  rewrite Join_prefixed in HJ.
  assert (Hall : forallb (MatchString reference.nameComponentRegexp) (x :: xs) = true ->
                 MatchString reference.NameRegexp name = true).
  { intros Hf. apply NameRegexp_path. rewrite <- HJ. apply fields_path. exact Hf. }
  destruct xs as [|y ys].
  - destruct ((MatchString reference.nameComponentRegexp) x) eqn:Hx; [|discriminate].
    intros _. apply Hall. cbn [forallb]. rewrite Hx. reflexivity.
  - destruct (MatchString reference.DomainRegexp x && forallb (MatchString reference.nameComponentRegexp) (y :: ys))
      eqn:Hc.
    + intros _. apply andb_prop in Hc. destruct Hc as [Hd Hf].
      rewrite <- HJ. cbn [prefixed].
      apply NameRegexp_domain; [exact Hd|].
      apply fields_path. exact Hf.
    + destruct (forallb (MatchString reference.nameComponentRegexp) (x :: y :: ys)) eqn:Hf; [|discriminate].
      intros _. apply Hall. reflexivity.
Qed.

Lemma no_colon_clean (b : string) :
  ContainsRune b ":" = false -> reference.splitNameTag b = (b, None).
Proof.
  induction b as [|a b IH]; cbn [ContainsRune reference.splitNameTag]; [reflexivity|].
  destruct (Ascii.eqb a ":"); cbn [orb andb]; [discriminate|].
  intros H. rewrite (IH H). reflexivity.
Qed.

(** A name holds no ['@'], and no [':'] after its last ['/']. *)
Lemma NameRegexp_clean (name : string) :
  MatchString reference.NameRegexp name = true ->
  ContainsRune name "@" = false
  /\ reference.splitNameTag name = (name, None).
Proof.
  intros H. split; [apply (MatchString_excludes _ _ _ H); reflexivity|].
  assert (Hp : forall path, MatchString pathRegexp path = true ->
                            reference.splitNameTag path = (path, None)).
  { intros path Hp. apply no_colon_clean.
    apply (MatchString_excludes _ _ _ Hp). reflexivity. }
  destruct (NameRegexp_inv _ H) as [(dom & path & -> & _ & Hpath)|Hpath].
  - apply splitNameTag_slash_clean, Hp, Hpath.
  - apply Hp, Hpath.
Qed.

End NameFacts.

Section ReferenceRegexpFacts.

Import strings regexp.

Lemma optional_inv (sep : ascii) (r : re) (s : string) :
  MatchString (optional (Cat (Char sep) r)) s = true ->
  exists o,
    s = match o with Some x => String sep x | None => "" end
    /\ reference.matchOpt r o = true.
Proof.
  unfold optional. rewrite MatchString_Alt. intros H.
  apply orb_prop in H. destruct H as [H|H].
  - destruct (MatchString_Cat_inv _ _ _ H) as (a & x & -> & Ha & Hx).
    apply MatchString_Char in Ha. subst a. exists (Some x). auto.
  - apply MatchString_Eps in H. subst s. exists None. auto.
Qed.

Lemma optional_matches (sep : ascii) (r : re) (o : option string) :
  reference.matchOpt r o = true ->
  MatchString (optional (Cat (Char sep) r))
              match o with Some x => String sep x | None => "" end = true.
Proof.
  unfold optional. rewrite MatchString_Alt. destruct o as [x|]; cbn [reference.matchOpt].
  - intros H. change (String sep x) with (String sep "" ++ x).
    rewrite (MatchString_Cat (Char sep) r (String sep "") x); [reflexivity | | exact H].
    cbn. rewrite Ascii.eqb_refl. reflexivity.
  - intros _. apply orb_true_r.
Qed.

(** The captures computed by cutting at the delimiters are those of any
    decomposition of the string along the regular expression. *)
Theorem FindStringSubmatch_complete (name : string) (t d : option string) :
  MatchString reference.NameRegexp name = true ->
  reference.matchOpt reference.TagRegexp t = true ->
  reference.matchOpt reference.DigestRegexp d = true ->
  reference.ReferenceRegexp_FindStringSubmatch (name ++ tagPart t ++ digestPart d)
  = Some (name, reference.capture t, reference.capture d).
Proof.
  intros Hn Ht Hd.
  destruct (NameRegexp_clean _ Hn) as [Hat Hs].
  destruct (anchoredName_complete _ Hn) as (dm & p & Ha).
  rewrite FindStringSubmatch_parts; [rewrite Ha, Ht, Hd; reflexivity | exact Hat | exact Hs |].
  intros x ->. cbn [reference.matchOpt] in Ht.
  split; apply (MatchString_excludes _ _ _ Ht); reflexivity.
Qed.

(** The string [s] matches the reference regular expression exactly when
    the submatch function finds captures in it. *)
Theorem ReferenceRegexp_FindStringSubmatch_iff (s : string) :
  MatchString reference.ReferenceRegexp s = true
  <-> exists m, reference.ReferenceRegexp_FindStringSubmatch s = Some m.
Proof.
  split.
  - intros H. unfold reference.ReferenceRegexp in H.
    destruct (MatchString_Cat_inv _ _ _ H) as (name & rest & -> & Hn & Hrest).
    destruct (MatchString_Cat_inv _ _ _ Hrest) as (tp & dp & -> & Htp & Hdp).
    destruct (optional_inv _ _ _ Htp) as (t & -> & Ht).
    destruct (optional_inv _ _ _ Hdp) as (d & -> & Hd).
    eexists.
    change (match t with Some x => String ":" x | None => "" end) with (tagPart t).
    change (match d with Some x => String "@" x | None => "" end) with (digestPart d).
    apply FindStringSubmatch_complete; assumption.
  - intros [[[name tg] dg] H].
    destruct (FindStringSubmatch_inv _ _ _ _ H)
      as (t & d & -> & _ & _ & _ & _ & _ & Ht & Hd & dm & p & Ha).
    unfold reference.ReferenceRegexp.
    apply MatchString_Cat; [exact (anchoredName_sound _ _ _ Ha)|].
    apply MatchString_Cat.
    + exact (optional_matches ":" _ t Ht).
    + exact (optional_matches "@" _ d Hd).
Qed.

End ReferenceRegexpFacts.

(* ================================================================== *)
(** * The digest rewriter *)
(* ================================================================== *)

(** The rewriter on an image string that parses: the result is the name
    capture, an ['@'] and the digest. *)
Lemma rewriteImageWithDigest_name (image dgst : string) (n : string)
      (t d : option string) (dm p : string) :
  reference.anchoredNameRegexp_FindStringSubmatch n = Some (dm, p) ->
  reference.Parse image
  = Ok (reference.named
          (bestNamed {| reference.domain := dm; reference.path := p |}
                     (reference.capture t) (reference.capture d))) ->
  reference.Name (bestNamed {| reference.domain := dm; reference.path := p |}
                            (reference.capture t) (reference.capture d)) = n
  /\ rewriteImageWithDigest image dgst = Ok (n ++ "@" ++ dgst).
Proof.
  intros Ha H. destruct (anchoredName_Name _ _ _ Ha) as [HN _].
  assert (Hname : reference.Name
                    (bestNamed {| reference.domain := dm; reference.path := p |}
                               (reference.capture t) (reference.capture d)) = n).
  { unfold reference.Name. rewrite bestNamed_repo. exact HN. }
  split; [exact Hname|].
  unfold rewriteImageWithDigest. rewrite H. cbn [reference.asNamed].
  rewrite Hname. reflexivity.
Qed.

(** C10. The rewriter does not look at the digest it is given: whenever the
    image string parses, the parsed reference is a named one, the image
    string starts with its name, and the result is that name, an ['@'] and
    the digest as it is, whatever the digest. The result need not parse:
    with the empty digest, or with a digest that is none, the normalizing
    parser rejects it. *)
Theorem rewriteImageWithDigest_verbatim :
  (forall image dgst ref,
      reference.Parse image = Ok ref ->
      exists n rest,
        reference.asNamed ref = Some n
        /\ image = reference.Name n ++ rest
        /\ rewriteImageWithDigest image dgst = Ok (reference.Name n ++ "@" ++ dgst))
  /\ (exists e,
         rewriteImageWithDigest "myapp:v1" "" = Ok "myapp@"
         /\ parseOCIReference "myapp@" = Err e)
  /\ (exists e,
         rewriteImageWithDigest "myapp:v1" "latest" = Ok "myapp@latest"
         /\ parseOCIReference "myapp@latest" = Err e).
Proof.
  split; [|split].
  - intros image dgst ref H.
    destruct (Parse_inv _ _ H)
      as (n & t & d & dm & p & He & _ & _ & _ & Ha & _ & _ & _ & _ & ->).
    destruct (rewriteImageWithDigest_name image dgst n t d dm p Ha H) as [HN Hr].
    eexists _, (tagPart t ++ digestPart d).
    split; [reflexivity|]. rewrite HN. split; assumption.
  - eexists. split; vm_compute; reflexivity.
  - eexists. split; vm_compute; reflexivity.
Qed.

Lemma rewriteImageWithDigest_verbatim_witness :
  rewriteImageWithDigest "registry.example.com/bundles/myapp:v1" "sha256:aaa"
  = Ok "registry.example.com/bundles/myapp@sha256:aaa".
Proof.
  destruct (proj1 rewriteImageWithDigest_verbatim
              "registry.example.com/bundles/myapp:v1" "sha256:aaa"
              (reference.named
                 (reference.taggedReference
                    {| reference.domain := "registry.example.com";
                       reference.path := "bundles/myapp" |} "v1")))
    as (n & rest & Hn & _ & Hr).
  - vm_compute. reflexivity.
  - injection Hn as <-. exact Hr.
Defined.

(** C1, as written, fails: the digest is not validated by the rewriter, and
    with the digest [sha256:aaa] the rewritten reference of the tagged image
    [myapp:v1] does not parse. *)
Lemma pin_with_short_digest_does_not_parse :
  (exists r,
      parseOCIReference "myapp:v1" = Ok r /\ reference.Tag r = Some "v1")
  /\ rewriteImageWithDigest "myapp:v1" "sha256:aaa" = Ok "myapp@sha256:aaa"
  /\ ~ pinThenParse "myapp:v1" "sha256:aaa".
Proof.
  split; [|split].
  - eexists. split; vm_compute; reflexivity.
  - vm_compute. reflexivity.
  - intros (out & r & Hout & Hr & _).
    vm_compute in Hout. injection Hout as <-.
    vm_compute in Hr. discriminate Hr.
Qed.

(** C1, amended. For every image string that both parsers accept and every
    digest that [digest.Validate] accepts, the rewriter returns the
    un-normalized name of the image, an ['@'] and the digest; the
    normalizing parser accepts that string, and the reference it yields has
    no tag, has the given digest, and names the same repository as the
    image. *)
Theorem pin_then_parse (image dgst : string) (ref : reference.Reference)
        (r : reference.Named) :
  reference.Parse image = Ok ref ->
  parseOCIReference image = Ok r ->
  digest.Validate dgst = None ->
  exists n r',
    reference.asNamed ref = Some n
    /\ rewriteImageWithDigest image dgst = Ok (reference.Name n ++ "@" ++ dgst)
    /\ parseOCIReference (reference.Name n ++ "@" ++ dgst) = Ok r'
    /\ reference.Tag r' = None
    /\ reference.Digest r' = Some dgst
    /\ reference.repo r' = reference.repo r.
Proof.
  intros H1 H2 H3. unfold parseOCIReference in *.
  destruct (Parse_inv _ _ H1)
    as (n & t & d & dm & p & He & Hat & Hs & Ht & Ha & Hmt & Hmd & Hl & Hv & ->).
  destruct (rewriteImageWithDigest_name image dgst n t d dm p Ha H1) as [HN Hr].
  (* the text after the name holds no ['/'] *)
  assert (Hrest : strings.ContainsRune (tagPart t ++ digestPart d) "/" = false).
  { rewrite ContainsRune_app.
    rewrite (tagPart_no_slash t (fun x Hx => proj1 (Ht x Hx))).
    destruct d as [x|]; [|reflexivity].
    cbn [digestPart append strings.ContainsRune orb].
    rewrite (Validate_no_slash _ (Hv x eq_refl)). reflexivity. }
  assert (Hout : strings.ContainsRune ("@" ++ dgst) "/" = false).
  { cbn [append strings.ContainsRune].
    rewrite (Validate_no_slash _ H3). reflexivity. }
  destruct (normalizedName_clean n Hat Hs) as [HNat HNs].
  (* what the normalizing parser found in the image *)
  rewrite He, (ParseNormalizedNamed_app _ _ Hrest) in H2.
  destruct (regexp.MatchString reference.IdentifierRegexp _); [discriminate H2|].
  cbv zeta in H2.
  match type of H2 with
  | (if negb (String.eqb ?a ?b) then _ else _) = _ =>
      destruct (String.eqb_spec a b) as [Hlow|]; [|discriminate H2]
  end.
  cbn [negb] in H2.
  destruct (reference.Parse (normalizedName n ++ tagPart t ++ digestPart d))
    as [ref2|] eqn:HP2; [|discriminate H2].
  destruct (Parse_parts_inv _ _ _ _ HNat HNs Ht HP2) as (dm2 & p2 & Ha2 & Hl2 & ->).
  cbn [reference.asNamed] in H2. injection H2 as <-.
  (* the normalizing parser on the rewritten reference *)
  exists (bestNamed {| reference.domain := dm; reference.path := p |}
                    (reference.capture t) (reference.capture d)).
  exists (bestNamed {| reference.domain := dm2; reference.path := p2 |} "" dgst).
  split; [reflexivity|]. rewrite HN. split; [exact Hr|].
  assert (Hd : String.eqb dgst "" = false).
  { apply String.eqb_neq. exact (Validate_nonempty _ H3). }
  split; [|split; [|split]];
    [ | unfold bestNamed; cbn [String.eqb]; rewrite Hd; reflexivity
      | unfold bestNamed; cbn [String.eqb]; rewrite Hd; reflexivity
      | rewrite !bestNamed_repo; reflexivity ].
  rewrite (ParseNormalizedNamed_app _ _ Hout).
  rewrite Identifier_no_at
    by (rewrite ContainsRune_app; cbn [append strings.ContainsRune];
        rewrite Ascii.eqb_refl; cbn [orb]; apply orb_true_r).
  cbv zeta.
  assert (Hlow' : strings.ToLower
                    (fst (strings.Cut (snd (reference.splitDockerDomain n)
                                       ++ "@" ++ dgst) ":"))
                  = fst (strings.Cut (snd (reference.splitDockerDomain n)
                                      ++ "@" ++ dgst) ":")).
  { rewrite Cut_fst_app in Hlow |- *.
    destruct (strings.ContainsRune (snd (reference.splitDockerDomain n)) ":");
      [exact Hlow|].
    apply ToLower_app_fixed in Hlow. destruct Hlow as [Hlow _].
    rewrite ToLower_app, Hlow, (Validate_lowercase _ H3). reflexivity. }
  rewrite Hlow', String.eqb_refl. cbn [negb].
  change (normalizedName n ++ "@" ++ dgst)
    with (normalizedName n ++ tagPart None ++ digestPart (Some dgst)).
  rewrite (Parse_parts _ None (Some dgst) dm2 p2 HNat HNs); try assumption.
  - reflexivity.
  - discriminate.
  - reflexivity.
  - cbn [reference.matchOpt]. apply Validate_DigestRegexp. exact H3.
  - intros x Hx. injection Hx as <-. exact H3.
Qed.

Lemma pin_then_parse_witness :
  exists r',
    parseOCIReference
      ("myapp@" ++ sample.pushedDigest) = Ok r'
    /\ reference.Tag r' = None
    /\ reference.Digest r' = Some sample.pushedDigest.
Proof.
  destruct (pin_then_parse "myapp:v1" sample.pushedDigest
              (reference.named
                 (reference.taggedReference
                    {| reference.domain := ""; reference.path := "myapp" |} "v1"))
              (reference.taggedReference
                 {| reference.domain := "docker.io";
                    reference.path := "library/myapp" |} "v1"))
    as (n & r' & Hn & _ & Hp & Ht & Hd & _).
  - vm_compute. reflexivity.
  - vm_compute. reflexivity.
  - vm_compute. reflexivity.
  - injection Hn as <-. exists r'. repeat split; assumption.
Defined.

(* ================================================================== *)
(** * The progress display *)
(* ================================================================== *)

(** C9. A copy-start event writes the line [Starting to copy image
    <source>...]; a copy-end event with an error writes [Failed to copy
    image <source>: <error>]; a copy-end event without error writes
    [Completed image <source> copy]; an event of any other type leaves the
    [Porter] value, and so its output, unchanged. The manifest is never
    touched. *)
Theorem displayEvent_lines (ev : remotes.FixupEvent) (p : Porter) :
  (ev.(remotes.EventType) = remotes.FixupEventTypeCopyImageStart ->
   (displayEvent ev p).(Out)
   = p.(Out) ++ "Starting to copy image " ++ ev.(remotes.SourceImage) ++ "..." ++ LF)
  /\ (forall err,
        ev.(remotes.EventType) = remotes.FixupEventTypeCopyImageEnd ->
        ev.(remotes.Error) = Some err ->
        (displayEvent ev p).(Out)
        = p.(Out) ++ "Failed to copy image " ++ ev.(remotes.SourceImage) ++ ": "
          ++ Error err ++ LF)
  /\ (ev.(remotes.EventType) = remotes.FixupEventTypeCopyImageEnd ->
      ev.(remotes.Error) = None ->
      (displayEvent ev p).(Out)
      = p.(Out) ++ "Completed image " ++ ev.(remotes.SourceImage) ++ " copy" ++ LF)
  /\ (ev.(remotes.EventType) <> remotes.FixupEventTypeCopyImageStart ->
      ev.(remotes.EventType) <> remotes.FixupEventTypeCopyImageEnd ->
      displayEvent ev p = p)
  /\ (displayEvent ev p).(Config_Manifest) = p.(Config_Manifest).
Proof.
  unfold displayEvent.
  split; [|split; [|split; [|split]]].
  - intros ->. reflexivity.
  - intros err -> ->. reflexivity.
  - intros -> ->. reflexivity.
  - intros Hs He.
    destruct (String.eqb_spec (remotes.EventType ev) remotes.FixupEventTypeCopyImageStart);
      [contradiction|].
    destruct (String.eqb_spec (remotes.EventType ev) remotes.FixupEventTypeCopyImageEnd);
      [contradiction|].
    reflexivity.
  - destruct (String.eqb _ _); [reflexivity|].
    destruct (String.eqb _ _); [|reflexivity].
    destruct (remotes.Error ev); reflexivity.
Qed.

Lemma displayEvent_lines_witness :
  let p := {| Config_Manifest := sample.myapp; Out := "log:" |} in
  (displayEvent {| remotes.EventType := "CopyImageStart";
                   remotes.SourceImage := "redis:5";
                   remotes.Error := None |} p).(Out)
  = "log:Starting to copy image redis:5..." ++ LF
  /\ (displayEvent {| remotes.EventType := "CopyImageEnd";
                      remotes.SourceImage := "redis:5";
                      remotes.Error := Some (New "timeout") |} p).(Out)
     = "log:Failed to copy image redis:5: timeout" ++ LF
  /\ (displayEvent {| remotes.EventType := "CopyImageEnd";
                      remotes.SourceImage := "redis:5";
                      remotes.Error := None |} p).(Out)
     = "log:Completed image redis:5 copy" ++ LF
  /\ displayEvent {| remotes.EventType := "Progress";
                     remotes.SourceImage := "redis:5";
                     remotes.Error := Some (New "timeout") |} p = p.
Proof.
  intros p. split; [|split; [|split]].
  - apply (proj1 (displayEvent_lines
                    {| remotes.EventType := "CopyImageStart";
                       remotes.SourceImage := "redis:5";
                       remotes.Error := None |} p)).
    reflexivity.
  - apply (proj1 (proj2 (displayEvent_lines
                    {| remotes.EventType := "CopyImageEnd";
                       remotes.SourceImage := "redis:5";
                       remotes.Error := Some (New "timeout") |} p))
             (New "timeout")); reflexivity.
  - apply (proj1 (proj2 (proj2 (displayEvent_lines
                    {| remotes.EventType := "CopyImageEnd";
                       remotes.SourceImage := "redis:5";
                       remotes.Error := None |} p)))); reflexivity.
  - apply (proj1 (proj2 (proj2 (proj2 (displayEvent_lines
                    {| remotes.EventType := "Progress";
                       remotes.SourceImage := "redis:5";
                       remotes.Error := Some (New "timeout") |} p)))));
      simpl; discriminate.
Defined.

(* ================================================================== *)
(** * Case analysis of a run *)
(* ================================================================== *)

Ltac unfold_run :=
  unfold run, Publish, publishInvocationImage, getDockerClient,
    createResolver, fixupBundle, displayJSONMessagesStream,
    wrap, onError, bind, call, callUnchecked, method, write, manifest,
    ret, raise, record, start, performed in *;
  cbn [porter calls fst snd app Config_Manifest Out Fprint] in *.

(** Split on the innermost scrutinee of the goal or of a hypothesis. *)
Ltac case_step :=
  match goal with
  | |- context [match ?x with _ => _ end] =>
      lazymatch x with
      | context [match _ with _ => _ end] => fail
      | _ => destruct x eqn:?
      end
  | H : context [match ?x with _ => _ end] |- _ =>
      lazymatch x with
      | context [match _ with _ => _ end] => fail
      | _ => destruct x eqn:?
      end
  end; cbn [porter calls fst snd app Config_Manifest Out Fprint err_of] in *.

Ltac run_facts :=
  repeat match goal with
    | _ => progress cbn [porter calls fst snd app Config_Manifest Out Fprint err_of] in *
    | H : In _ (_ :: _) |- _ => destruct H
    | H : In _ [] |- _ => destruct H
    | H : ?a = ?b |- _ =>
        first [ discriminate H
              | is_var a; subst a
              | is_var b; subst b
              | progress (injection H; clear H; intros) ]
    end.

Ltac run_cases := unfold_run; repeat case_step; run_facts.

(* ================================================================== *)
(** * The invocation-image push *)
(* ================================================================== *)



(** C5. When the progress stream of the invocation-image push ends in an
    error whose message starts with [denied], the push step returns that
    error wrapped as an authentication failure; otherwise it is wrapped as
    a stream failure. In a publish run the authentication failure reaches
    the caller wrapped once more, and no relocation is on record. *)
Theorem denied_push_is_authentication_failure (E : Externals) (p : Porter) :
  (forall cli r st e,
      publishInvocationImage E cli (start p) = (r, st) ->
      In (OpDisplayJSONMessagesStream, Some e) st.(calls) ->
      r = Err (Wrap e (if strings.HasPrefix (Error e) "denied"
                       then "docker push authentication failed"
                       else "failed to stream docker push stdout")))
  /\ (forall opts r st e,
         run E opts p = (r, st) ->
         In (OpDisplayJSONMessagesStream, Some e) st.(calls) ->
         strings.HasPrefix (Error e) "denied" = true ->
         r = Err (Wrap (Wrap e "docker push authentication failed")
                       "unable to push CNAB invocation image")
         /\ performed (@isRelocation E) st = false
         /\ performed (@afterValidation E) st = false).
Proof.
  split.
  - intros cli r st e H Hin. run_cases; try discriminate; congruence.
  - intros opts r st e H Hin Hd. run_cases; try discriminate; try congruence.
    all: split; [reflexivity | split; reflexivity].
Qed.

Lemma denied_push_is_authentication_failure_witness :
  let E := sample.world sample.myapp "porter.yaml"
             (Some (New "denied: requested access to the resource is denied"))
             None None None in
  fst (run E (sample.options "" false) sample.blank)
  = Err (Wrap (Wrap (New "denied: requested access to the resource is denied")
                    "docker push authentication failed")
              "unable to push CNAB invocation image")
  /\ performed (@isRelocation E) (snd (run E (sample.options "" false) sample.blank))
     = false.
Proof.
  intros E.
  destruct (proj2 (denied_push_is_authentication_failure E sample.blank)
              (sample.options "" false)
              (fst (run E (sample.options "" false) sample.blank))
              (snd (run E (sample.options "" false) sample.blank))
              (New "denied: requested access to the resource is denied"))
    as (Hr & Hrel & _).
  - vm_compute. reflexivity.
  - vm_compute. intuition.
  - vm_compute. reflexivity.
  - split; assumption.
Defined.

(* ================================================================== *)
(** * The publish pipeline *)
(* ================================================================== *)




(** C2, as written, fails: with an empty bundle tag and collaborators that
    all succeed, the run ends in the missing-tag error only after the
    invocation image was pushed to the registry and inspected there. *)
Lemma empty_tag_run_pushes_image :
  ~ emptyTagFailsBeforeNetwork
      (sample.world sample.untagged "porter.yaml" None None None None)
      (sample.options "porter.yaml" false) sample.blank.
Proof.
  intros H. unfold emptyTagFailsBeforeNetwork in H.
  pose (w := run (sample.world sample.untagged "porter.yaml" None None None None)
                 (sample.options "porter.yaml" false) sample.blank).
  specialize (H (fst w) (snd w)). subst w.
  vm_compute in H.
  destruct (H eq_refl eq_refl) as [_ Hn]. discriminate Hn.
Qed.

(** C2, amended. A run that reaches the bundle-tag validation with an empty
    tag returns the missing-tag error; the resolver is not created and
    neither the relocation nor the push of the bundle takes place; the
    invocation image has been pushed by then. *)
Theorem empty_tag_aborts_before_relocation (E : Externals)
        (opts : PublishOptions) (p : Porter) r st err :
  run E opts p = (r, st) ->
  In (OpRequireBundleTag "", err) st.(calls) ->
  r = Err missingBundleTag
  /\ err = Some missingBundleTag
  /\ performed (@afterValidation E) st = false
  /\ performed (@isImagePush E) st = true.
Proof.
  intros H Hin. run_cases; try discriminate.
  all: try match goal with
         | H : ?x = "", H' : (?x =? "") = false |- _ =>
             rewrite H in H'; discriminate H'
         end.
  all: unfold missingBundleTag; repeat split; reflexivity.
Qed.

Lemma empty_tag_aborts_before_relocation_witness :
  let E := sample.world sample.untagged "porter.yaml" None None None None in
  fst (run E (sample.options "porter.yaml" false) sample.blank)
  = Err missingBundleTag
  /\ performed (@afterValidation E)
       (snd (run E (sample.options "porter.yaml" false) sample.blank)) = false.
Proof.
  intros E.
  destruct (@empty_tag_aborts_before_relocation E
              (sample.options "porter.yaml" false) sample.blank
              (fst (run E (sample.options "porter.yaml" false) sample.blank))
              (snd (run E (sample.options "porter.yaml" false) sample.blank))
              (Some missingBundleTag))
    as (Hr & _ & Ha & _).
  - vm_compute. reflexivity.
  - vm_compute. intuition.
  - split; assumption.
Defined.

Lemma stageContext_Cause (E : Externals) (op : Op E) (e : error) :
  Cause (stageContext op e) = Cause e.
Proof.
  destruct op; reflexivity.
Qed.

(** C3, as written, fails: a relocation failure reaches the caller as it
    is, with no stage message around it. *)
Lemma relocation_failure_is_returned_bare :
  ~ everyFailureWrapped
      (sample.world sample.myapp "porter.yaml" None None
                    (Some (New "connection refused")) None)
      (sample.options "porter.yaml" false) sample.blank.
Proof.
  intros H. unfold everyFailureWrapped in H.
  pose (w := run (sample.world sample.myapp "porter.yaml" None None
                               (Some (New "connection refused")) None)
                 (sample.options "porter.yaml" false) sample.blank).
  destruct (H (fst w) (snd w)
              (OpFixupBundle
                 (E := sample.world sample.myapp "porter.yaml" None None
                                    (Some (New "connection refused")) None)
                 "{}"
                 (reference.taggedReference
                    {| reference.domain := "registry.example.com";
                       reference.path := "bundles/myapp" |} "v1")
                 [])
              (New "connection refused"))
    as (cause & msg & Hr & _).
  - subst w. vm_compute. reflexivity.
  - subst w. vm_compute. tauto.
  - subst w. vm_compute in Hr. discriminate Hr.
Qed.

(** C3, amended. In a publish run, an operation other than the read of the
    descriptor file that fails with [e0] ends the run: it is the last
    operation on record and the caller receives [stageContext op e0], whose
    cause is the cause of [e0]. The errors of manifest loading, of the
    up-to-date check, of the client initialisation, of the relocation and
    of the final push, and the missing-tag error, are returned as they are;
    the others are wrapped with the message of their stage. Conversely, an
    error returned by the run is the one of its last operation. *)
Theorem failure_reaches_caller (E : Externals) (opts : PublishOptions)
        (p : Porter) r st :
  run E opts p = (r, st) ->
  (forall op e0,
      In (op, Some e0) st.(calls) ->
      isReadFile op = false ->
      r = Err (stageContext op e0)
      /\ Cause (stageContext op e0) = Cause e0
      /\ (returnedBare op = true -> r = Err e0)
      /\ last st.(calls) (OpLoadManifest, None) = (op, Some e0))
  /\ (forall e,
         r = Err e ->
         exists op e0,
           last st.(calls) (OpLoadManifest, None) = (op, Some e0)
           /\ isReadFile op = false
           /\ e = stageContext op e0).
Proof.
  intros H. split.
  - intros op e0 Hin Hrf.
    split; [|split; [apply stageContext_Cause|]].
    + run_cases; try discriminate; cbn [stageContext];
        try reflexivity;
        match goal with
        | H : strings.HasPrefix _ _ = _ |- _ => rewrite H; reflexivity
        end.
    + split.
      * intros Hb. run_cases; try discriminate; reflexivity.
      * run_cases; try discriminate; reflexivity.
  - intros e He. run_cases; try discriminate.
    all: eexists _, _; (split; [reflexivity | split; [reflexivity|]]).
    all: cbn [stageContext]; try reflexivity;
      match goal with
      | H : strings.HasPrefix _ _ = _ |- _ => rewrite H; reflexivity
      end.
Qed.

Lemma failure_reaches_caller_witness :
  let E := sample.world sample.myapp "porter.yaml" None None None
             (Some (New "manifest unknown")) in
  fst (run E (sample.options "porter.yaml" false) sample.blank)
  = Err (Wrap (Wrap (New "manifest unknown") "unable to inspect docker image")
              "unable to push CNAB invocation image").
Proof.
  intros E.
  pose (w := run E (sample.options "porter.yaml" false) sample.blank).
  destruct (@failure_reaches_caller E (sample.options "porter.yaml" false)
              sample.blank (fst w) (snd w)) as [Hf _].
  - subst w. vm_compute. reflexivity.
  - destruct (Hf (OpDistributionInspect "myapp:v1" "e30=") (New "manifest unknown"))
      as (Hr & _).
    + subst w. vm_compute. tauto.
    + reflexivity.
    + exact Hr.
Defined.

(** The operations of a run follow the order of the stages, and a run that
    succeeds ends with the push of the bundle. *)
Lemma stages_in_order (E : Externals) (opts : PublishOptions) (p : Porter) r st :
  run E opts p = (r, st) ->
  nondecreasing (stages st) = true
  /\ (r = Ok tt ->
      exists bun ref resolver,
        last st.(calls) (OpLoadManifest, None) = (OpPush bun ref resolver, None)).
Proof.
  intros H. unfold stages. run_cases.
  all: split; [reflexivity | intros; try discriminate].
  all: eexists _, _, _; reflexivity.
Qed.

(** C4, at a run in which the read of [cnab/bundle.json] returns the bytes
    it read together with an error: the error is on record, and the run
    goes on through the relocation and the final push and reports
    success. *)
Lemma publish_continues_after_failed_read :
  let E := sample.world sample.myapp "porter.yaml" None
             (Some (New "read cnab/bundle.json: input/output error")) None None in
  let w := run E (sample.options "porter.yaml" false) sample.blank in
  fst w = Ok tt
  /\ In (OpReadFile "cnab/bundle.json",
         Some (New "read cnab/bundle.json: input/output error")) (snd w).(calls)
  /\ performed (@isRelocation E) (snd w) = true
  /\ performed (@isPush E) (snd w) = true
  /\ stages (snd w) = [1; 1; 2; 2; 2; 2; 2; 2; 2; 2; 3; 4; 4; 4; 5; 5; 6; 6; 7].
Proof.
  vm_compute. repeat split; tauto.
Qed.

(* ================================================================== *)
(** * The registry security policy *)
(* ================================================================== *)

Lemma displayEvents_manifest (events : list remotes.FixupEvent) (p : Porter) :
  (fold_left (fun p ev => displayEvent ev p) events p).(Config_Manifest)
  = p.(Config_Manifest).
Proof.
  revert p. induction events as [|ev events IH]; intros p; cbn [fold_left].
  - reflexivity.
  - rewrite IH. unfold displayEvent.
    destruct (String.eqb _ _); [reflexivity|].
    destruct (String.eqb _ _); [|reflexivity].
    destruct (remotes.Error ev); reflexivity.
Qed.

(** C6, as written, fails: the push of the invocation image is a registry
    operation of the run and takes no resolver; it happens before the
    resolver is created. *)
Lemma image_push_takes_no_resolver :
  ~ oneResolverForAllRegistryOps
      (sample.world sample.myapp "porter.yaml" None None None None)
      (sample.options "porter.yaml" true) sample.blank.
Proof.
  intros H. unfold oneResolverForAllRegistryOps in H.
  pose (w := run (sample.world sample.myapp "porter.yaml" None None None None)
                 (sample.options "porter.yaml" true) sample.blank).
  destruct (H (fst w) (snd w)) as [_ Hops].
  - subst w. vm_compute. reflexivity.
  - destruct (Hops (OpImagePush "myapp:v1" {| All := true; RegistryAuth := "e30=" |})
                   None)
      as (insecure & rc & err' & _ & Hr).
    + subst w. vm_compute. tauto.
    + reflexivity.
    + discriminate Hr.
Qed.

(** C6, amended. In a publish run, the list of insecure registries given to
    the resolver configuration is the domain of the parsed bundle tag alone
    when the insecure flag is set, and empty otherwise; the configuration is
    created at most once, and the relocation and the final push, the
    operations that take a resolver, use it. *)
Theorem insecure_registries_from_bundle_tag (E : Externals)
        (opts : PublishOptions) (p : Porter) r st :
  run E opts p = (r, st) ->
  (forall insecure rc err,
      In (OpCreateResolver insecure rc, err) st.(calls) ->
      exists ref,
        parseOCIReference st.(porter).(Config_Manifest).(BundleTag) = Ok ref
        /\ insecure = (if opts.(InsecureRegistry)
                       then [reference.Domain ref] else [])
        /\ rc = E.(NewResolverConfigFromDockerConfigFile)
                    (snd E.(LoadDefaultConfigFile)) insecure)
  /\ (List.length (filter (fun ev : Event E => isCreateResolver (fst ev)) st.(calls))
      <= 1)%nat
  /\ (forall op err,
         In (op, err) st.(calls) ->
         takesResolver op = true ->
         exists insecure rc err',
           In (OpCreateResolver insecure rc, err') st.(calls)
           /\ resolverOf op = Some (E.(ResolverConfig_Resolver) rc)).
Proof.
  intros H. split; [|split].
  - intros insecure rc err Hin. run_cases; try discriminate.
    all: rewrite ?displayEvents_manifest; cbn [Config_Manifest Fprint].
    all: eexists; split; [eassumption|]; split; try reflexivity.
    all: match goal with
         | H : LoadDefaultConfigFile _ = _ |- _ => rewrite H; reflexivity
         end.
  - run_cases; cbn; lia.
  - intros op err Hin Ht. run_cases; try discriminate.
    all: eexists _, _, _; split; [|reflexivity]; cbn; tauto.
Qed.

Lemma insecure_registries_from_bundle_tag_witness :
  exists ref,
    parseOCIReference "registry.example.com/bundles/myapp:v1" = Ok ref
    /\ ["registry.example.com"] = [reference.Domain ref].
Proof.
  pose (E := sample.world sample.myapp "porter.yaml" None None None None).
  pose (w := run E (sample.options "porter.yaml" true) sample.blank).
  destruct (insecure_registries_from_bundle_tag E
              (sample.options "porter.yaml" true) sample.blank (fst w) (snd w))
    as (Hi & _).
  - subst w. vm_compute. reflexivity.
  - destruct (Hi ["registry.example.com"] ["registry.example.com"] None)
      as (ref & Hp & Hins & _).
    + subst w. vm_compute. tauto.
    + exists ref. split; [exact Hp | exact Hins].
Defined.

(* ================================================================== *)
(** * Output only grows *)
(* ================================================================== *)

Lemma HasPrefix_append (a b : string) : strings.HasPrefix (a ++ b) a = true.
Proof.
  induction a as [|c a IH]; [reflexivity|].
  cbn [append strings.HasPrefix]. rewrite Ascii.eqb_refl, IH. reflexivity.
Qed.

Lemma HasPrefix_trans (a b c : string) :
  strings.HasPrefix b a = true -> strings.HasPrefix c b = true ->
  strings.HasPrefix c a = true.
Proof.
  revert b c. induction a as [|x a IH]; intros b c Hab Hbc; [reflexivity|].
  destruct b as [|y b]; [discriminate Hab|].
  destruct c as [|z c]; [discriminate Hbc|].
  cbn [strings.HasPrefix] in *.
  apply andb_prop in Hab. destruct Hab as [H1 H2].
  apply andb_prop in Hbc. destruct Hbc as [H3 H4].
  apply Ascii.eqb_eq in H1. apply Ascii.eqb_eq in H3. subst.
  rewrite Ascii.eqb_refl, (IH _ _ H2 H4). reflexivity.
Qed.

Lemma HasPrefix_refl (a : string) : strings.HasPrefix a a = true.
Proof.
  induction a as [|c a IH]; [reflexivity|].
  cbn [strings.HasPrefix]. rewrite Ascii.eqb_refl, IH. reflexivity.
Qed.

Lemma displayEvent_grows (ev : remotes.FixupEvent) (p : Porter) :
  strings.HasPrefix (displayEvent ev p).(Out) p.(Out) = true.
Proof.
  unfold displayEvent.
  destruct (String.eqb _ _); [apply HasPrefix_append|].
  destruct (String.eqb _ _); [|apply HasPrefix_refl].
  destruct (remotes.Error ev); apply HasPrefix_append.
Qed.

Lemma displayEvent_other (ev : remotes.FixupEvent) (p : Porter) :
  isCopyEvent ev = false -> displayEvent ev p = p.
Proof.
  unfold isCopyEvent, displayEvent. intros H.
  apply orb_false_elim in H. destruct H as [-> ->]. reflexivity.
Qed.

(* ================================================================== *)
(** * More about the publish pipeline *)
(* ================================================================== *)

(** X1. The operations of every run follow the order of the stages (manifest,
    invocation-image push, pin, descriptor, bundle tag, relocation, final
    push), and a run that succeeds ends with the push of the bundle. *)
Theorem run_follows_stage_order (E : Externals) (opts : PublishOptions)
        (p : Porter) r st :
  run E opts p = (r, st) ->
  nondecreasing (stages st) = true
  /\ (r = Ok tt ->
      exists bun ref resolver,
        last st.(calls) (OpLoadManifest, None) = (OpPush bun ref resolver, None)
        /\ stages st = [1; 1; 2; 2; 2; 2; 2; 2; 2; 2; 3; 4; 4; 4; 5; 5; 6; 6; 7]).
Proof.
  intros H. unfold stages. run_cases.
  all: split; [reflexivity | intros; try discriminate].
  all: eexists _, _, _; split; reflexivity.
Qed.

Lemma run_follows_stage_order_witness :
  nondecreasing
    (stages (snd (run (sample.world sample.myapp "porter.yaml" None None None None)
                      (sample.options "porter.yaml" false) sample.blank))) = true.
Proof.
  pose (E := sample.world sample.myapp "porter.yaml" None None None None).
  pose (w := run E (sample.options "porter.yaml" false) sample.blank).
  apply (proj1 (run_follows_stage_order E (sample.options "porter.yaml" false)
                  sample.blank (fst w) (snd w) (surjective_pairing w))).
Defined.

(** X2. A run never repeats a registry operation: the invocation image is
    pushed at most once and inspected at most once, the bundle is relocated
    at most once and pushed at most once; a run that succeeds does each
    exactly once. *)
Theorem no_registry_operation_is_repeated (E : Externals)
        (opts : PublishOptions) (p : Porter) r st :
  run E opts p = (r, st) ->
  (occurrences (@isImagePush E) st <= 1
   /\ occurrences (@isDistributionInspect E) st <= 1
   /\ occurrences (@isRelocation E) st <= 1
   /\ occurrences (@isPush E) st <= 1)%nat
  /\ (r = Ok tt ->
      occurrences (@isImagePush E) st = 1%nat
      /\ occurrences (@isDistributionInspect E) st = 1%nat
      /\ occurrences (@isRelocation E) st = 1%nat
      /\ occurrences (@isPush E) st = 1%nat).
Proof.
  intros H. unfold occurrences. run_cases.
  all: split; [cbn; lia | intros; try discriminate].
  all: cbn; auto.
Qed.

Lemma no_registry_operation_is_repeated_witness :
  occurrences
    (@isImagePush (sample.world sample.myapp "porter.yaml" None None None None))
    (snd (run (sample.world sample.myapp "porter.yaml" None None None None)
              (sample.options "porter.yaml" false) sample.blank)) = 1%nat.
Proof.
  pose (E := sample.world sample.myapp "porter.yaml" None None None None).
  pose (w := run E (sample.options "porter.yaml" false) sample.blank).
  destruct (no_registry_operation_is_repeated E (sample.options "porter.yaml" false)
              sample.blank (fst w) (snd w) (surjective_pairing w)) as [_ Hs].
  destruct Hs as (H1 & _).
  - subst w. vm_compute. reflexivity.
  - exact H1.
Defined.

(** X3. A failure before the push of the invocation image (loading the
    manifest, the up-to-date check, the Docker client, the parse of the
    image reference, the repository information, the encoding of the
    credentials) ends the run before any registry operation. *)
Theorem early_failure_reaches_no_registry (E : Externals)
        (opts : PublishOptions) (p : Porter) r st op e0 :
  run E opts p = (r, st) ->
  In (op, Some e0) st.(calls) ->
  beforePush op = true ->
  performed (@registryOp E) st = false
  /\ r = Err (stageContext op e0).
Proof.
  intros H Hin Hb. run_cases; try discriminate.
  all: split; reflexivity.
Qed.

Lemma early_failure_reaches_no_registry_witness :
  let E := sample.world {| Image := "MyApp:v1"; BundleTag := "" |}
                        "porter.yaml" None None None None in
  performed (@registryOp E)
            (snd (run E (sample.options "porter.yaml" false) sample.blank)) = false.
Proof.
  intros E.
  pose (w := run E (sample.options "porter.yaml" false) sample.blank).
  apply (proj1 (early_failure_reaches_no_registry E
                  (sample.options "porter.yaml" false) sample.blank
                  (fst w) (snd w) (OpParseInvocationImage "MyApp:v1")
                  (New "invalid reference format: repository name must be lowercase")
                  (surjective_pairing w)
                  ltac:(subst w; vm_compute; tauto) eq_refl)).
Defined.

(** X4. A bundle tag that is not empty but does not parse ends the run with
    the parse error wrapped as an invalid bundle tag reference; the resolver
    is not created and neither the relocation nor the final push takes
    place, but the invocation image has been pushed and inspected. *)
Theorem invalid_bundle_tag_aborts_before_relocation (E : Externals)
        (opts : PublishOptions) (p : Porter) r st tag e0 :
  run E opts p = (r, st) ->
  In (OpParseBundleTag tag, Some e0) st.(calls) ->
  r = Err (Wrap e0 "invalid bundle tag reference. expected value is REGISTRY/bundle:tag")
  /\ parseOCIReference tag = Err e0
  /\ tag <> ""
  /\ performed (@afterValidation E) st = false
  /\ performed (@isImagePush E) st = true
  /\ performed (@isDistributionInspect E) st = true.
Proof.
  intros H Hin. run_cases; try discriminate.
  all: repeat split; try reflexivity; try assumption.
  all: intros Ht;
    match goal with
    | H : (?x =? "") = false |- _ => rewrite Ht in H; discriminate H
    end.
Qed.

Lemma invalid_bundle_tag_aborts_before_relocation_witness :
  let E := sample.world {| Image := "myapp:v1"; BundleTag := "Bundles/MyApp:v1" |}
                        "porter.yaml" None None None None in
  fst (run E (sample.options "porter.yaml" false) sample.blank)
  = Err (Wrap (New "invalid reference format: repository name must be lowercase")
              "invalid bundle tag reference. expected value is REGISTRY/bundle:tag").
Proof.
  intros E.
  pose (w := run E (sample.options "porter.yaml" false) sample.blank).
  apply (proj1 (invalid_bundle_tag_aborts_before_relocation E
                  (sample.options "porter.yaml" false) sample.blank
                  (fst w) (snd w) "Bundles/MyApp:v1"
                  (New "invalid reference format: repository name must be lowercase")
                  (surjective_pairing w)
                  ltac:(subst w; vm_compute; tauto))).
Defined.

(** X5. The bundle is regenerated with the pinned reference: whenever a run
    reaches the generation of the bundle, its first argument is the output
    of the rewriter on the manifest's image and its second argument is the
    digest that the registry reported at the inspection of that image. *)
Theorem bundle_is_built_with_pinned_reference (E : Externals)
        (opts : PublishOptions) (p : Porter) r st taggedImage dgst err :
  run E opts p = (r, st) ->
  In (OpBuildBundle taggedImage dgst, err) st.(calls) ->
  exists cli image auth dist,
    In (OpDistributionInspect image auth, None) st.(calls)
    /\ E.(DistributionInspect_) cli image auth = Ok dist
    /\ dgst = dist.(Descriptor_).(Digest)
    /\ In (OpRewriteImageWithDigest image dgst, None) st.(calls)
    /\ rewriteImageWithDigest image dgst = Ok taggedImage.
Proof.
  intros H Hin. run_cases; try discriminate.
  all: eexists _, _, _, _;
    (split; [cbn; tauto|]);
    (split; [eassumption|]);
    (split; [reflexivity|]);
    (split; [cbn; tauto | assumption]).
Qed.

Lemma bundle_is_built_with_pinned_reference_witness :
  rewriteImageWithDigest "myapp:v1" sample.pushedDigest
  = Ok ("myapp@" ++ sample.pushedDigest).
Proof.
  pose (E := sample.world sample.myapp "porter.yaml" None None None None).
  pose (w := run E (sample.options "porter.yaml" false) sample.blank).
  destruct (bundle_is_built_with_pinned_reference E
              (sample.options "porter.yaml" false) sample.blank (fst w) (snd w)
              ("myapp@" ++ sample.pushedDigest) sample.pushedDigest None
              (surjective_pairing w) ltac:(subst w; vm_compute; tauto))
    as (cli & image & auth & dist & Hi & _ & _ & Hr & Hrw).
  subst w. vm_compute in Hr.
  repeat match type of Hr with
         | _ \/ _ => destruct Hr as [Hr|Hr]; [try discriminate Hr|]
         | False => destruct Hr
         end.
  injection Hr as <-. exact Hrw.
Defined.

(** X6. What the final push publishes: the bundle as the relocation left it,
    under the reference the relocation was given, with the resolver of the
    configuration the relocation used. The relocated bundle is the parse of
    the bytes read from [cnab/bundle.json], and the reference is the parse
    of the manifest's bundle tag. *)
Theorem final_push_publishes_relocated_bundle (E : Externals)
        (opts : PublishOptions) (p : Porter) r st bun ref resolver err :
  run E opts p = (r, st) ->
  In (OpPush bun ref resolver, err) st.(calls) ->
  exists bun0 rc events,
    In (OpFixupBundle bun0 ref rc, None) st.(calls)
    /\ E.(FixupBundle) bun0 ref rc = (events, bun, None)
    /\ resolver = E.(ResolverConfig_Resolver) rc
    /\ E.(ParseReader) (fst (E.(ReadFile) "cnab/bundle.json")) = Ok bun0
    /\ parseOCIReference st.(porter).(Config_Manifest).(BundleTag) = Ok ref
    /\ err = err_of (E.(Push) bun ref resolver).
Proof.
  intros H Hin. run_cases; try discriminate.
  all: rewrite ?displayEvents_manifest; cbn [Config_Manifest Fprint].
  all: eexists _, _, _;
    (split; [cbn; tauto|]);
    (split; [eassumption|]);
    (split; [reflexivity|]);
    (split; [first [assumption | reflexivity]|]);
    (split; [first [assumption | reflexivity]|]).
  all: first [ reflexivity
             | match goal with
               | H : Push _ _ _ _ = _ |- _ => rewrite H; reflexivity
               end ].
Qed.

Lemma final_push_publishes_relocated_bundle_witness :
  exists ref,
    parseOCIReference "registry.example.com/bundles/myapp:v1" = Ok ref
    /\ reference.Named_String ref = "registry.example.com/bundles/myapp:v1".
Proof.
  pose (E := sample.world sample.myapp "porter.yaml" None None None None).
  pose (w := run E (sample.options "porter.yaml" false) sample.blank).
  pose (ref := reference.taggedReference
                 {| reference.domain := "registry.example.com";
                    reference.path := "bundles/myapp" |} "v1").
  destruct (final_push_publishes_relocated_bundle E
              (sample.options "porter.yaml" false) sample.blank (fst w) (snd w)
              "{}" ref [] None
              (surjective_pairing w) ltac:(subst w; vm_compute; tauto))
    as (bun0 & rc & events & _ & _ & _ & _ & Hp & _).
  exists ref. split; [exact Hp | reflexivity].
Defined.

(** X7. A run that succeeds ends its output with the success line, which
    names the parsed bundle tag and quotes the digest that the final push
    returned. *)
Theorem success_line_reports_tag_and_digest (E : Externals)
        (opts : PublishOptions) (p : Porter) st :
  run E opts p = (Ok tt, st) ->
  exists bun ref resolver d before,
    last st.(calls) (OpLoadManifest, None) = (OpPush bun ref resolver, None)
    /\ E.(Push) bun ref resolver = Ok d
    /\ parseOCIReference st.(porter).(Config_Manifest).(BundleTag) = Ok ref
    /\ st.(porter).(Out) = before ++ successLine E ref d.
Proof.
  intros H. run_cases.
  all: rewrite ?displayEvents_manifest; cbn [Config_Manifest Fprint].
  all: eexists _, _, _, _, _;
    (split; [reflexivity|]);
    (split; [first [eassumption | reflexivity]|]);
    (split; [first [assumption | reflexivity] | reflexivity]).
Qed.

Lemma success_line_reports_tag_and_digest_witness :
  exists before,
    (snd (run (sample.world sample.myapp "porter.yaml" None None None None)
              (sample.options "porter.yaml" false) sample.blank)).(porter).(Out)
    = before ++ "Bundle tag registry.example.com/bundles/myapp:v1 pushed successfully, with digest "
      ++ sample.quote sample.bundleDigest ++ LF.
Proof.
  pose (E := sample.world sample.myapp "porter.yaml" None None None None).
  pose (w := run E (sample.options "porter.yaml" false) sample.blank).
  destruct (success_line_reports_tag_and_digest E
              (sample.options "porter.yaml" false) sample.blank (snd w))
    as (bun & ref & resolver & d & before & _ & Hd & Hp & Ho).
  - subst w. vm_compute. reflexivity.
  - exists before. subst w. vm_compute in Hp. injection Hp as <-.
    cbn in Hd. injection Hd as <-. exact Ho.
Defined.

(** X10. The push step pushes the manifest's image string as it is, with
    all tags and with the credentials resolved for the repository of the
    parsed image and encoded; the inspection that follows asks for the same
    image with the same credentials. The step leaves the manifest alone
    and keeps the output written before it. *)
Theorem push_step_uses_manifest_image_and_one_auth (E : Externals)
        (cli : E.(DockerCli)) (p : Porter) r st :
  publishInvocationImage E cli (start p) = (r, st) ->
  st.(porter).(Config_Manifest) = p.(Config_Manifest)
  /\ strings.HasPrefix st.(porter).(Out) p.(Out) = true
  /\ (forall image options err,
         In (OpImagePush image options, err) st.(calls) ->
         image = p.(Config_Manifest).(Image)
         /\ options.(All) = true
         /\ err = err_of (E.(ImagePush) cli image options)
         /\ exists ref repoInfo,
             parseOCIReference image = Ok ref
             /\ E.(ParseRepositoryInfo) ref = Ok repoInfo
             /\ E.(EncodeAuthToBase64) (E.(ResolveAuthConfig) cli repoInfo)
                = Ok options.(RegistryAuth))
  /\ (forall image auth err,
         In (OpDistributionInspect image auth, err) st.(calls) ->
         image = p.(Config_Manifest).(Image)
         /\ exists options,
             In (OpImagePush image options, None) st.(calls)
             /\ auth = options.(RegistryAuth)).
Proof.
  intros H. split; [|split; [|split]].
  - run_cases; reflexivity.
  - run_cases; first [apply HasPrefix_refl | apply HasPrefix_append].
  - intros image options err Hin. run_cases; try discriminate.
    all: split; [reflexivity|]; split; [reflexivity|]; split;
      [ match goal with
        | H : ImagePush _ _ _ _ = _ |- _ => rewrite H; reflexivity
        end
      | eexists _, _; split; [eassumption|]; split; eassumption ].
  - intros image auth err Hin. run_cases; try discriminate.
    all: split; [reflexivity|]; eexists; split; [cbn; tauto | reflexivity].
Qed.

Lemma push_step_uses_manifest_image_and_one_auth_witness :
  let E := sample.world sample.myapp "porter.yaml" None None None None in
  let p := {| Config_Manifest := sample.myapp; Out := "" |} in
  (snd (publishInvocationImage E tt (start p))).(porter).(Config_Manifest)
  = sample.myapp.
Proof.
  intros E p.
  apply (proj1 (push_step_uses_manifest_image_and_one_auth E tt p
                  (fst (publishInvocationImage E tt (start p)))
                  (snd (publishInvocationImage E tt (start p)))
                  (surjective_pairing _))).
Defined.

(* ================================================================== *)
(** * Options, and the display of relocation events *)
(* ================================================================== *)

(** X8. Validation and publication together: when [Validate] returns no
    error, the options it leaves name a manifest file and keep the insecure
    flag, and a run with them starts by loading the manifest from that file;
    the default location is never used. *)
Theorem validated_options_load_named_file (E : Externals)
        (o o' : PublishOptions) (cxt : E.(PorterContext)) (p : Porter) r st :
  Validate E o cxt = (o', None) ->
  run E o' p = (r, st) ->
  o'.(bundleFileOptions_).(File) <> ""
  /\ o'.(InsecureRegistry) = o.(InsecureRegistry)
  /\ o'.(bundleFileOptions_) = fst (E.(bundleFileOptions_Validate) o.(bundleFileOptions_) cxt)
  /\ hd_error st.(calls)
     = Some (OpLoadManifestFrom o'.(bundleFileOptions_).(File),
             snd (E.(LoadManifestFrom) o'.(bundleFileOptions_).(File) p))
  /\ performed (@isDefaultLoad E) st = false.
Proof.
  intros Hv H. unfold Validate in Hv.
  destruct (E.(bundleFileOptions_Validate) (bundleFileOptions_ o) cxt) as [b err].
  destruct err as [e|]; [discriminate Hv|].
  destruct (String.eqb_spec (File b) "") as [|Hne]; [discriminate Hv|].
  injection Hv as <-. cbn [bundleFileOptions_ InsecureRegistry fst] in *.
  split; [exact Hne|]. split; [reflexivity|]. split; [reflexivity|].
  unfold_run. cbn [bundleFileOptions_ InsecureRegistry] in H.
  destruct (String.eqb_spec (File b) "") as [|_]; [contradiction|].
  cbn [negb] in H.
  repeat case_step; run_facts.
  all: split; [|reflexivity].
  all: cbn [hd_error];
    match goal with
    | H : LoadManifestFrom _ _ _ = _ |- _ => rewrite H; reflexivity
    end.
Qed.

Lemma validated_options_load_named_file_witness :
  let E := sample.world sample.myapp "porter.yaml" None None None None in
  hd_error (snd (run E (sample.options "porter.yaml" false) sample.blank)).(calls)
  = Some (OpLoadManifestFrom "porter.yaml", None).
Proof.
  intros E.
  pose (w := run E (sample.options "porter.yaml" false) sample.blank).
  destruct (validated_options_load_named_file E
              (sample.options "" false) (sample.options "porter.yaml" false)
              tt sample.blank (fst w) (snd w) eq_refl (surjective_pairing w))
    as (_ & _ & _ & Hh & _).
  exact Hh.
Defined.

(** X9. The display of a sequence of relocation events: events that are
    neither a copy start nor a copy end leave no trace (displaying the
    sequence is displaying its copy events), a sequence displays as its
    parts one after the other, the output written before is kept as a
    prefix, and the manifest is untouched. *)
Theorem displayEvents_shows_copy_events_only
        (events more : list remotes.FixupEvent) (p : Porter) :
  displayEvents events p = displayEvents (filter isCopyEvent events) p
  /\ displayEvents (events ++ more) p = displayEvents more (displayEvents events p)
  /\ strings.HasPrefix (displayEvents events p).(Out) p.(Out) = true
  /\ (displayEvents events p).(Config_Manifest) = p.(Config_Manifest).
Proof.
  unfold displayEvents. split; [|split; [|split]].
  - revert p. induction events as [|ev events IH]; intros p; [reflexivity|].
    cbn [fold_left filter].
    destruct (isCopyEvent ev) eqn:Hc.
    + cbn [fold_left]. apply IH.
    + rewrite (displayEvent_other _ _ Hc). apply IH.
  - apply fold_left_app.
  - revert p. induction events as [|ev events IH]; intros p;
      [apply HasPrefix_refl|].
    cbn [fold_left].
    exact (HasPrefix_trans _ _ _ (displayEvent_grows ev p) (IH _)).
  - apply displayEvents_manifest.
Qed.

(* ================================================================== *)
(** * More about the rewriter and the parser *)
(* ================================================================== *)

(** X11. The rewriter fails exactly when [reference.Parse] rejects the
    image, whatever the digest, and then with the parse error's text after
    [unable to parse docker image: ]; the error for a reference without a
    name is never returned, since a reference that parses has a name. *)
Theorem rewriteImageWithDigest_fails_only_on_parse (image dgst : string) :
  (forall e, reference.Parse image = Err e ->
             rewriteImageWithDigest image dgst
             = Err (New ("unable to parse docker image: " ++ Error e)))
  /\ (forall ref, reference.Parse image = Ok ref ->
                  exists out, rewriteImageWithDigest image dgst = Ok out)
  /\ rewriteImageWithDigest image dgst
     <> Err (New "had an issue with the docker image").
Proof.
  split; [|split].
  - intros e H. unfold rewriteImageWithDigest. rewrite H. reflexivity.
  - intros ref H.
    destruct (Parse_inv _ _ H)
      as (n & t & d & dm & p & _ & _ & _ & _ & Ha & _ & _ & _ & _ & ->).
    destruct (rewriteImageWithDigest_name image dgst n t d dm p Ha H) as [_ Hr].
    eexists. exact Hr.
  - destruct (reference.Parse image) as [ref|e] eqn:H.
    + destruct (Parse_inv _ _ H)
        as (n & t & d & dm & p & _ & _ & _ & _ & Ha & _ & _ & _ & _ & ->).
      destruct (rewriteImageWithDigest_name image dgst n t d dm p Ha H) as [_ Hr].
      rewrite Hr. discriminate.
    + unfold rewriteImageWithDigest. rewrite H. discriminate.
Qed.

Lemma rewriteImageWithDigest_fails_only_on_parse_witness :
  rewriteImageWithDigest "" "sha256:aaa"
  = Err (New "unable to parse docker image: repository name must have at least one component").
Proof.
  apply (proj1 (rewriteImageWithDigest_fails_only_on_parse "" "sha256:aaa")
           reference.ErrNameEmpty).
  reflexivity.
Defined.

(** X12. Pinning again replaces the digest: after a rewrite with a digest
    that [digest.Validate] accepts, rewriting the result with a second
    digest gives what rewriting the original image with the second digest
    gives; in particular rewriting with the same digest changes nothing. *)
Theorem rewriteImageWithDigest_twice (image d1 d2 out : string) :
  digest.Validate d1 = None ->
  rewriteImageWithDigest image d1 = Ok out ->
  rewriteImageWithDigest out d2 = rewriteImageWithDigest image d2
  /\ rewriteImageWithDigest out d1 = Ok out.
Proof.
  intros Hv Hr.
  destruct (reference.Parse image) as [ref|e] eqn:H.
  2:{ unfold rewriteImageWithDigest in Hr. rewrite H in Hr. discriminate Hr. }
  destruct (Parse_inv _ _ H)
    as (n & t & d & dm & p & _ & Hat & Hs & _ & Ha & _ & _ & Hl & _ & ->).
  destruct (rewriteImageWithDigest_name image d1 n t d dm p Ha H) as [_ Hr1].
  rewrite Hr1 in Hr. injection Hr as <-.
  assert (Hout : reference.Parse (n ++ "@" ++ d1)
                 = Ok (reference.named
                         (bestNamed {| reference.domain := dm; reference.path := p |}
                                    (reference.capture None)
                                    (reference.capture (Some d1))))).
  { change (n ++ "@" ++ d1) with (n ++ tagPart None ++ digestPart (Some d1)).
    apply Parse_parts; try assumption.
    - discriminate.
    - reflexivity.
    - cbn [reference.matchOpt]. apply Validate_DigestRegexp. exact Hv.
    - intros x Hx. injection Hx as <-. exact Hv. }
  change (n ++ String "@" d1) with (n ++ "@" ++ d1).
  split.
  - rewrite (proj2 (rewriteImageWithDigest_name _ d2 n None (Some d1) dm p Ha Hout)).
    rewrite (proj2 (rewriteImageWithDigest_name image d2 n t d dm p Ha H)).
    reflexivity.
  - exact (proj2 (rewriteImageWithDigest_name _ d1 n None (Some d1) dm p Ha Hout)).
Qed.

Lemma rewriteImageWithDigest_twice_witness :
  rewriteImageWithDigest ("myapp@" ++ sample.pushedDigest) sample.bundleDigest
  = rewriteImageWithDigest "myapp:v1" sample.bundleDigest.
Proof.
  apply (proj1 (rewriteImageWithDigest_twice "myapp:v1" sample.pushedDigest
                  sample.bundleDigest ("myapp@" ++ sample.pushedDigest)
                  ltac:(vm_compute; reflexivity) ltac:(vm_compute; reflexivity))).
Defined.

Section RoundTrip.

Import strings regexp.

Lemma IndexRune_first (a b : string) (c : ascii) :
  ContainsRune a c = false ->
  IndexRune (a ++ String c b) c = Some (String.length a)
  /\ take (String.length a) (a ++ String c b) = a
  /\ drop (String.length a + 1) (a ++ String c b) = b.
Proof.
  induction a as [|x a IH]; cbn [ContainsRune append IndexRune String.length].
  - intros _. rewrite Ascii.eqb_refl. repeat split; reflexivity.
  - destruct (Ascii.eqb x c); cbn [orb]; [discriminate|].
    intros H. destruct (IH H) as (-> & H2 & H3).
    cbn [take drop Nat.add]. rewrite H2, H3. repeat split; reflexivity.
Qed.

Lemma take_no_rune (s : string) (c : ascii) (i : nat) :
  IndexRune s c = Some i -> ContainsRune (take i s) c = false.
Proof.
  intros H. pose proof (IndexRune_Cut s c) as HC. rewrite H in HC.
  pose proof (Cut_spec s c) as HS. rewrite HC in HS. exact (proj2 HS).
Qed.

(** Splitting the domain off a normalized name gives its parts back. *)
Lemma splitDockerDomain_fixed (s : string) :
  reference.splitDockerDomain
    (fst (reference.splitDockerDomain s) ++ "/" ++ snd (reference.splitDockerDomain s))
  = reference.splitDockerDomain s.
Proof.
  assert (Hgen : forall dom rem,
             ContainsRune dom "/" = false ->
             negb (ContainsAny dom ".:") && negb (String.eqb dom "localhost") = false ->
             String.eqb dom reference.legacyDefaultDomain = false ->
             (String.eqb dom reference.defaultDomain && negb (Contains rem "/")) = false ->
             reference.splitDockerDomain (dom ++ "/" ++ rem) = (dom, rem)).
  { intros dom rem Hd Hc Hl Hr. unfold reference.splitDockerDomain.
    change ("/" ++ rem) with (String "/" rem).
    destruct (IndexRune_first dom rem "/" Hd) as (-> & -> & ->).
    rewrite Hc, Hl, Hr. reflexivity. }
  destruct (reference.splitDockerDomain s) as [dom rem] eqn:Hds. cbn [fst snd].
  unfold reference.splitDockerDomain in Hds.
  replace (String.eqb reference.defaultDomain reference.legacyDefaultDomain)
    with false in Hds by reflexivity.
  assert (Hdef : forall x,
             (reference.defaultDomain,
              if String.eqb reference.defaultDomain reference.defaultDomain
                 && negb (Contains x "/")
              then reference.officialRepoName ++ "/" ++ x else x) = (dom, rem) ->
             reference.splitDockerDomain (dom ++ "/" ++ rem) = (dom, rem)).
  { intros x Hx. rewrite String.eqb_refl in Hx. cbn [andb] in Hx.
    destruct (Contains x "/") eqn:Hs; cbn [negb] in Hx; injection Hx as <- <-;
      apply Hgen; try reflexivity.
    rewrite Hs. reflexivity. }
  destruct (IndexRune s "/") as [i|] eqn:Hi.
  - destruct (negb (ContainsAny (take i s) ".:")
              && negb (String.eqb (take i s) "localhost")) eqn:Hc.
    + cbv beta iota zeta in Hds.
      replace (String.eqb reference.defaultDomain reference.legacyDefaultDomain)
        with false in Hds by reflexivity.
      exact (Hdef _ Hds).
    + cbv beta iota zeta in Hds.
      destruct (String.eqb_spec (take i s) reference.legacyDefaultDomain) as [He|Hne].
      * exact (Hdef _ Hds).
      * destruct (String.eqb_spec (take i s) reference.defaultDomain) as [He|Hnd].
        -- rewrite He in Hds. rewrite <- (String.eqb_refl reference.defaultDomain) in Hds.
           exact (Hdef _ Hds).
        -- cbn [andb] in Hds. injection Hds as <- <-. apply Hgen.
           ++ exact (take_no_rune _ _ _ Hi).
           ++ exact Hc.
           ++ apply String.eqb_neq. exact Hne.
           ++ rewrite (proj2 (String.eqb_neq _ _) Hnd). reflexivity.
  - cbv beta iota zeta in Hds.
    replace (String.eqb reference.defaultDomain reference.legacyDefaultDomain)
      with false in Hds by reflexivity.
    exact (Hdef _ Hds).
Qed.

Lemma Identifier_no_slash (s : string) :
  ContainsRune s "/" = true ->
  MatchString reference.IdentifierRegexp s = false.
Proof.
  intros H. unfold reference.IdentifierRegexp.
  rewrite MatchString_times_Class.
  destruct (allChars lowerhex s) eqn:Ha; [|apply andb_false_r].
  rewrite (allChars_excludes _ _ "/" Ha eq_refl) in H. discriminate H.
Qed.

(** The string of a parsed reference: name, tag and digest as captured. *)
Lemma Named_String_bestNamed (n : string) (t d : option string) (dm p : string) :
  reference.anchoredNameRegexp_FindStringSubmatch n = Some (dm, p) ->
  reference.matchOpt reference.TagRegexp t = true ->
  reference.matchOpt reference.DigestRegexp d = true ->
  reference.Named_String
    (bestNamed {| reference.domain := dm; reference.path := p |}
               (reference.capture t) (reference.capture d))
  = n ++ tagPart t ++ digestPart d.
Proof.
  intros Ha Ht Hd. destruct (anchoredName_Name _ _ _ Ha) as [HN _].
  unfold bestNamed.
  destruct t as [x|]; destruct d as [y|];
    cbn [reference.capture reference.matchOpt tagPart digestPart] in *.
  - destruct (String.eqb_spec x "") as [->|_]; [discriminate Ht|].
    destruct (String.eqb_spec y "") as [->|_]; [discriminate Hd|].
    cbn [reference.Named_String reference.namedRepository reference.tag
           reference.digest].
    rewrite HN. reflexivity.
  - destruct (String.eqb_spec x "") as [->|_]; [discriminate Ht|].
    cbn [String.eqb reference.Named_String]. rewrite HN, append_nil_r. reflexivity.
  - destruct (String.eqb_spec y "") as [->|_]; [discriminate Hd|].
    cbn [String.eqb negb reference.Named_String]. rewrite HN. reflexivity.
  - cbn [String.eqb negb reference.Named_String]. rewrite HN, append_nil_r.
    reflexivity.
Qed.

End RoundTrip.

(** X13. The string of a reference parses back to the reference: when the
    pipeline's parser accepts a string, the string form of the result (the
    one printed in the success line) is the normalized input, and parsing it
    yields the same reference again. *)
Theorem parseOCIReference_round_trip (s : string) (r : reference.Named) :
  parseOCIReference s = Ok r ->
  reference.Named_String r = normalizedName s
  /\ parseOCIReference (reference.Named_String r) = Ok r.
Proof.
  unfold parseOCIReference, reference.ParseNormalizedNamed, normalizedName.
  intros H.
  destruct (regexp.MatchString reference.IdentifierRegexp s); [discriminate H|].
  pose proof (splitDockerDomain_fixed s) as Hfix.
  destruct (reference.splitDockerDomain s) as [dom rem]. cbn [fst snd] in Hfix.
  destruct (negb _) eqn:Hlow; [discriminate H|].
  destruct (reference.Parse (dom ++ "/" ++ rem)) as [ref|] eqn:HP; [|discriminate H].
  destruct (Parse_inv _ _ HP)
    as (n & t & d & dm & p & He & _ & _ & _ & Ha & Ht & Hd & _ & _ & ->).
  cbn [reference.asNamed] in H. injection H as <-.
  rewrite (Named_String_bestNamed n t d dm p Ha Ht Hd), <- He.
  split; [reflexivity|].
  rewrite Identifier_no_slash
    by (rewrite ContainsRune_app; cbn [append strings.ContainsRune];
        rewrite Ascii.eqb_refl; cbn [orb]; apply orb_true_r).
  rewrite Hfix, Hlow, HP. reflexivity.
Qed.

Lemma parseOCIReference_round_trip_witness :
  exists r,
    parseOCIReference "myapp:v1" = Ok r
    /\ reference.Named_String r = "docker.io/library/myapp:v1"
    /\ parseOCIReference "docker.io/library/myapp:v1" = Ok r.
Proof.
  pose (r := reference.taggedReference
               {| reference.domain := "docker.io";
                  reference.path := "library/myapp" |} "v1").
  destruct (parseOCIReference_round_trip "myapp:v1" r ltac:(vm_compute; reflexivity))
    as [_ Hp].
  exists r. split; [vm_compute; reflexivity|]. split; [reflexivity | exact Hp].
Defined.

(* ================================================================== *)
(** * The reference written into the bundle *)
(* ================================================================== *)

(** The rewritten reference of an image that both parsers accept, for a
    digest that [digest.Validate] accepts. *)
Lemma rewritten_reference_parses (image dgst : string) (ref : reference.Reference)
      (r : reference.Named) :
  reference.Parse image = Ok ref ->
  parseOCIReference image = Ok r ->
  digest.Validate dgst = None ->
  exists n r',
    reference.asNamed ref = Some n
    /\ rewriteImageWithDigest image dgst = Ok (reference.Name n ++ "@" ++ dgst)
    /\ parseOCIReference (reference.Name n ++ "@" ++ dgst) = Ok r'
    /\ reference.Tag r' = None
    /\ reference.Digest r' = Some dgst
    /\ reference.repo r' = reference.repo r.
Proof.
  intros H1 H2 H3. unfold parseOCIReference in *.
  destruct (Parse_inv _ _ H1)
    as (n & t & d & dm & p & He & Hat & Hs & Ht & Ha & Hmt & Hmd & Hl & Hv & ->).
  destruct (rewriteImageWithDigest_name image dgst n t d dm p Ha H1) as [HN Hr].
  (* the text after the name holds no ['/'] *)
  assert (Hrest : strings.ContainsRune (tagPart t ++ digestPart d) "/" = false).
  { rewrite ContainsRune_app.
    rewrite (tagPart_no_slash t (fun x Hx => proj1 (Ht x Hx))).
    destruct d as [x|]; [|reflexivity].
    cbn [digestPart append strings.ContainsRune orb].
    rewrite (Validate_no_slash _ (Hv x eq_refl)). reflexivity. }
  assert (Hout : strings.ContainsRune ("@" ++ dgst) "/" = false).
  { cbn [append strings.ContainsRune].
    rewrite (Validate_no_slash _ H3). reflexivity. }
  destruct (normalizedName_clean n Hat Hs) as [HNat HNs].
  (* what the normalizing parser found in the image *)
  rewrite He, (ParseNormalizedNamed_app _ _ Hrest) in H2.
  destruct (regexp.MatchString reference.IdentifierRegexp _); [discriminate H2|].
  cbv zeta in H2.
  match type of H2 with
  | (if negb (String.eqb ?a ?b) then _ else _) = _ =>
      destruct (String.eqb_spec a b) as [Hlow|]; [|discriminate H2]
  end.
  cbn [negb] in H2.
  destruct (reference.Parse (normalizedName n ++ tagPart t ++ digestPart d))
    as [ref2|] eqn:HP2; [|discriminate H2].
  destruct (Parse_parts_inv _ _ _ _ HNat HNs Ht HP2) as (dm2 & p2 & Ha2 & Hl2 & ->).
  cbn [reference.asNamed] in H2. injection H2 as <-.
  (* the normalizing parser on the rewritten reference *)
  exists (bestNamed {| reference.domain := dm; reference.path := p |}
                    (reference.capture t) (reference.capture d)).
  exists (bestNamed {| reference.domain := dm2; reference.path := p2 |} "" dgst).
  split; [reflexivity|]. rewrite HN. split; [exact Hr|].
  assert (Hd : String.eqb dgst "" = false).
  { apply String.eqb_neq. exact (Validate_nonempty _ H3). }
  split; [|split; [|split]];
    [ | unfold bestNamed; cbn [String.eqb]; rewrite Hd; reflexivity
      | unfold bestNamed; cbn [String.eqb]; rewrite Hd; reflexivity
      | rewrite !bestNamed_repo; reflexivity ].
  rewrite (ParseNormalizedNamed_app _ _ Hout).
  rewrite Identifier_no_at
    by (rewrite ContainsRune_app; cbn [append strings.ContainsRune];
        rewrite Ascii.eqb_refl; cbn [orb]; apply orb_true_r).
  cbv zeta.
  assert (Hlow' : strings.ToLower
                    (fst (strings.Cut (snd (reference.splitDockerDomain n)
                                       ++ "@" ++ dgst) ":"))
                  = fst (strings.Cut (snd (reference.splitDockerDomain n)
                                      ++ "@" ++ dgst) ":")).
  { rewrite Cut_fst_app in Hlow |- *.
    destruct (strings.ContainsRune (snd (reference.splitDockerDomain n)) ":");
      [exact Hlow|].
    apply ToLower_app_fixed in Hlow. destruct Hlow as [Hlow _].
    rewrite ToLower_app, Hlow, (Validate_lowercase _ H3). reflexivity. }
  rewrite Hlow', String.eqb_refl. cbn [negb].
  change (normalizedName n ++ "@" ++ dgst)
    with (normalizedName n ++ tagPart None ++ digestPart (Some dgst)).
  rewrite (Parse_parts _ None (Some dgst) dm2 p2 HNat HNs); try assumption.
  - reflexivity.
  - discriminate.
  - reflexivity.
  - cbn [reference.matchOpt]. apply Validate_DigestRegexp. exact H3.
  - intros x Hx. injection Hx as <-. exact H3.
Qed.

(** X14. The reference written into the bundle is pinned: when a run
    reaches the generation of the bundle and the digest reported by the
    registry is one that [digest.Validate] accepts, the reference handed to
    the generation parses to a reference without tag, with that digest, in
    the repository of the image that was pushed. *)
Theorem bundle_reference_is_digest_pinned (E : Externals)
        (opts : PublishOptions) (p : Porter) r st taggedImage dgst err :
  run E opts p = (r, st) ->
  In (OpBuildBundle taggedImage dgst, err) st.(calls) ->
  digest.Validate dgst = None ->
  exists image pushed pinned,
    In (OpParseInvocationImage image, None) st.(calls)
    /\ parseOCIReference image = Ok pushed
    /\ parseOCIReference taggedImage = Ok pinned
    /\ reference.Tag pinned = None
    /\ reference.Digest pinned = Some dgst
    /\ reference.repo pinned = reference.repo pushed.
Proof.
  intros H Hin Hv.
  assert (Hcore : forall image pushed,
             parseOCIReference image = Ok pushed ->
             rewriteImageWithDigest image dgst = Ok taggedImage ->
             exists pinned,
               parseOCIReference taggedImage = Ok pinned
               /\ reference.Tag pinned = None
               /\ reference.Digest pinned = Some dgst
               /\ reference.repo pinned = reference.repo pushed).
  { intros image pushed Hp Hr.
    destruct (reference.Parse image) as [ref|e] eqn:HP.
    2:{ unfold rewriteImageWithDigest in Hr. rewrite HP in Hr. discriminate Hr. }
    destruct (rewritten_reference_parses image dgst ref pushed HP Hp Hv)
      as (n & pinned & _ & Hr' & Hpp & Ht & Hd & Hrepo).
    rewrite Hr' in Hr. injection Hr as <-.
    exists pinned. auto. }
  run_cases; try discriminate.
  all: match goal with
       | Hp : parseOCIReference ?image = Ok ?pushed,
         Hr : rewriteImageWithDigest ?image _ = Ok _ |- _ =>
           destruct (Hcore image pushed Hp Hr) as (pinned & H1 & H2 & H3 & H4);
           exists image, pushed, pinned
       end.
  all: split; [cbn; tauto|]; auto.
Qed.

Lemma bundle_reference_is_digest_pinned_witness :
  exists pinned,
    parseOCIReference ("myapp@" ++ sample.pushedDigest) = Ok pinned
    /\ reference.Tag pinned = None
    /\ reference.Digest pinned = Some sample.pushedDigest.
Proof.
  pose (E := sample.world sample.myapp "porter.yaml" None None None None).
  pose (w := run E (sample.options "porter.yaml" false) sample.blank).
  destruct (bundle_reference_is_digest_pinned E
              (sample.options "porter.yaml" false) sample.blank (fst w) (snd w)
              ("myapp@" ++ sample.pushedDigest) sample.pushedDigest None
              (surjective_pairing w) ltac:(subst w; vm_compute; tauto)
              ltac:(vm_compute; reflexivity))
    as (image & pushed & pinned & _ & _ & Hp & Ht & Hd & _).
  exists pinned. auto.
Defined.
